(** * MLB Defensive Profiles: the data pipeline of [streamlit_app.py]

    A shallow embedding of the tabular part of the dashboard script:
    [load_df] with its derived [disagreement_index] column, the team filter
    ([candidates], [lb_pool]), the selected player ([row]), the available
    percentile metrics ([player_pct_cols]), [best] / [worst], and the
    leaderboard ([leader]).

    Numbers.  A numeric cell of the frame is an [option Q]: [None] is pandas'
    NaN (an empty CSV field), [Some q] a finite value.  float64 arithmetic is
    idealised to exact rational arithmetic; the one irrational operation, the
    square root taken by [DataFrame.std], is kept symbolic ([Sqrt v] stands for
    the real number √v, see [sqrt_val]).

    Columns.  [Player] and [Team] are the two string columns every input file
    has; every other column is numeric and is addressed by its header name. *)

From Stdlib Require Import QArith Qreals Reals Lra Lqa Psatz.
From stdpp Require Import gmap strings list sorting.

Close Scope R_scope.
Close Scope Q_scope.
Local Open Scope string_scope.
Local Open Scope nat_scope.
Local Open Scope list_scope.

(** ** Exceptions *)

Inductive exn :=
  | FileNotFoundError (path : string)
  | KeyError (key : string)
  | IndexError
  | ValueError.

Inductive result (A : Type) :=
  | Ok (a : A)
  | Raise (e : exn).
Arguments Ok {A} a.
Arguments Raise {A} e.

#[global] Instance result_ret : MRet result := λ A a, Ok a.
#[global] Instance result_bind : MBind result := λ A B f m,
  match m with Ok a => f a | Raise e => Raise e end.
#[global] Instance result_fmap : FMap result := λ A B f m,
  match m with Ok a => Ok (f a) | Raise e => Raise e end.

(** ** Config (lines 20-46) *)

Definition RAW_METRICS : list string :=
  ["outs_above_average"; "Rdrs"; "Rtot"; "DRP"; "Fld%"; "FRV"].

Definition PCT_METRICS : list string :=
  [ "outs_above_average_percentile";
    "Rdrs_percentile";
    "Rtot_percentile";
    "DRP_percentile";
    "Fld%_percentile";
    "FRV_percentile" ].

Definition LABEL : gmap string string :=
  list_to_map
    [ ("outs_above_average", "OAA");
      ("outs_above_average_percentile", "OAA (pct)");
      ("Rdrs", "DRS");
      ("Rdrs_percentile", "DRS (pct)");
      ("Rtot", "Total Zone");
      ("Rtot_percentile", "Total Zone (pct)");
      ("DRP", "DRP");
      ("DRP_percentile", "DRP (pct)");
      ("Fld%", "Fielding %");
      ("Fld%_percentile", "Fielding % (pct)");
      ("FRV", "FRV");
      ("FRV_percentile", "FRV (pct)") ].

Definition DATA_FILES : gmap string string :=
  list_to_map
    [ ("2025", "defensive_metrics_25.csv");
      ("2024", "defensive_metrics_24.csv") ].

Arguments LABEL : simpl never.
Arguments DATA_FILES : simpl never.

(** [d[k]] on a Python dict. *)
Definition dict_get {V} (d : gmap string V) (k : string) : result V :=
  match d !! k with
  | Some v => Ok v
  | None => Raise (KeyError k)
  end.

(** ** Frames *)

(** One parsed line of the CSV.  [vals] is aligned with the numeric columns of
    the frame; a line with fewer fields than the header is read with NaN in
    the missing positions, which is what [cell_at] returns there. *)
Record CsvRow := mkCsvRow {
  Player : string;
  Team : string;
  vals : list (option Q)
}.

(** What [pd.read_csv] returns. *)
Record CsvFrame := mkCsvFrame {
  csv_columns : list string;
  csv_rows : list CsvRow
}.

(** The value √[radicand]. *)
Record sqrtQ := Sqrt { radicand : Q }.

(** A row of the frame after [df["disagreement_index"] = ...]. *)
Record Row := mkRow {
  base : CsvRow;
  disagreement_index : option sqrtQ
}.

Record DataFrame := mkDataFrame {
  columns : list string;
  rows : list Row
}.

#[global] Instance Q_eq_dec : EqDecision Q.
Proof. solve_decision. Defined.
#[global] Instance CsvRow_eq_dec : EqDecision CsvRow.
Proof. solve_decision. Defined.
#[global] Instance sqrtQ_eq_dec : EqDecision sqrtQ.
Proof. solve_decision. Defined.
#[global] Instance Row_eq_dec : EqDecision Row.
Proof. solve_decision. Defined.
#[global] Instance DataFrame_eq_dec : EqDecision DataFrame.
Proof. solve_decision. Defined.

(** [pd.notna] / [Series.notna]. *)
Definition notna (x : option Q) : bool :=
  match x with Some _ => true | None => false end.

(** Position of a column label in the header. *)
Definition col_index (c : string) (cols : list string) : option nat :=
  fst <$> list_find (λ c', c' = c) cols.

Definition cell_at (r : CsvRow) (i : nat) : option Q :=
  default None (vals r !! i).

(** Resolving a column label: KeyError when the frame has no such column. *)
Definition col_pos (cols : list string) (c : string) : result nat :=
  match col_index c cols with
  | Some i => Ok i
  | None => Raise (KeyError c)
  end.

(** [row[c]] for a numeric column [c]. *)
Definition getitem (cols : list string) (r : CsvRow) (c : string)
  : result (option Q) :=
  i ← col_pos cols c;
  Ok (cell_at r i).

(** [df[sel]] for a list of labels, seen from one row. *)
Definition select (cols : list string) (sel : list string) (r : CsvRow)
  : result (list (option Q)) :=
  mapM (getitem cols r) sel.

(** ** [DataFrame.std(axis=1, ddof=ddof)] (skipna is the default)

    pandas' [nanvar] on one row: NaN cells are masked out of the count and
    replaced by 0 in both sums; the result is NaN when [count <= ddof]. *)

Definition nansum (xs : list (option Q)) : Q :=
  foldr (λ x acc, (default 0 x + acc)%Q) 0%Q xs.

Definition nancount (xs : list (option Q)) : nat :=
  length (filter (λ x, is_Some x) xs).

Definition Qnat (n : nat) : Q := inject_Z (Z.of_nat n).

Definition sqdev (avg : Q) (x : option Q) : option Q :=
  (λ v, (avg - v) * (avg - v))%Q <$> x.

Definition nanvar (ddof : nat) (xs : list (option Q)) : option Q :=
  let count := nancount xs in
  if decide (count ≤ ddof) then None
  else
    let avg := (nansum xs / Qnat count)%Q in
    let sqr := sqdev avg <$> xs in
    Some (nansum sqr / Qnat (count - ddof))%Q.

Definition nanstd (ddof : nat) (xs : list (option Q)) : option sqrtQ :=
  Sqrt <$> nanvar ddof xs.

(** ** [load_df] (lines 54-59), without the cache *)

Definition existing_pct (cols : list string) : list string :=
  filter (λ c, c ∈ cols) PCT_METRICS.

Definition load_row (cols : list string) (r : CsvRow) : result Row :=
  xs ← select cols (existing_pct cols) r;
  mret (mkRow r (nanstd 0 xs)).

Definition load_df_body (csv : CsvFrame) : result DataFrame :=
  rs ← mapM (load_row (csv_columns csv)) (csv_rows csv);
  mret (mkDataFrame (csv_columns csv) rs).

(** ** Widgets

    [st.selectbox(label, options)]: the value it returns is the option the
    user picked, the first option when the stored pick does not fit the
    current options, and [None] when there are no options. *)
Definition selectbox (options : list string) (choice : nat) : option string :=
  match options with
  | [] => None
  | first :: _ => Some (default first (options !! choice))
  end.

(** [sorted] on strings (code-point order). *)
Definition str_le (a b : string) : Prop := String.leb a b = true.
#[global] Instance str_le_dec : RelDecision str_le.
Proof. intros a b. unfold str_le. apply _. Defined.

Definition sorted (l : list string) : list string := merge_sort str_le l.

(** [Series.unique()]: the distinct values (the callers sort them). *)
Definition unique (l : list string) : list string := remove_dups l.

(** ** Sidebar (lines 63-69) *)

Definition team_options (df : DataFrame) : list string :=
  "(All)" :: sorted (unique ((λ r, Team (base r)) <$> rows df)).

(** [df if team == "(All)" else df[df["Team"] == team]]; [team] is what a
    selectbox returned. *)
Definition candidates (df : DataFrame) (team : option string) : DataFrame :=
  if decide (team = Some "(All)") then df
  else mkDataFrame (columns df)
         (filter (λ r, Some (Team (base r)) = team) (rows df)).

Definition player_options (cand : DataFrame) : list string :=
  sorted (unique ((λ r, Player (base r)) <$> rows cand)).

(** [candidates[candidates["Player"] == player]]; [player] is what the
    selectbox returned, so it may be [None]. *)
Definition mask_player (cand : DataFrame) (player : option string) : DataFrame :=
  mkDataFrame (columns cand)
    (filter (λ r, Some (Player (base r)) = player) (rows cand)).

(** [.iloc[0]] *)
Definition iloc0 (df : DataFrame) : result Row :=
  match rows df with
  | r :: _ => Ok r
  | [] => Raise IndexError
  end.

Definition row (cand : DataFrame) (player : option string) : result Row :=
  iloc0 (mask_player cand player).

(** ** Available percentile metrics (line 72)

    [[m for m in PCT_METRICS if m in df.columns and pd.notna(row[m])]];
    [and] short-circuits, so [row[m]] is only evaluated for a present column. *)
Fixpoint pct_cols_of (cols : list string) (r : Row) (ms : list string)
  : result (list string) :=
  match ms with
  | [] => Ok []
  | m :: ms' =>
      keep ← (if decide (m ∈ cols) then notna <$> getitem cols (base r) m
              else Ok false);
      rest ← pct_cols_of cols r ms';
      Ok (if keep : bool then m :: rest else rest)
  end.

Definition player_pct_cols (df : DataFrame) (r : Row) : result (list string) :=
  pct_cols_of (columns df) r PCT_METRICS.

(** ** Story splitter (lines 83-98) *)

Definition Qltb (x y : Q) : bool := negb (Qle_bool y x).

(** [a < b] on floats: false as soon as one side is NaN. *)
Definition py_lt (a b : option Q) : bool :=
  match a, b with
  | Some x, Some y => Qltb x y
  | _, _ => false
  end.

(** The scan of Python's [max(iterable, key=...)]: the running maximum is
    replaced only by a strictly greater key. *)
Fixpoint max_from {A} (key : A → result (option Q)) (best : A) (bestk : option Q)
    (l : list A) : result A :=
  match l with
  | [] => Ok best
  | x :: l' =>
      k ← key x;
      if py_lt bestk k then max_from key x k l' else max_from key best bestk l'
  end.

Definition py_max {A} (key : A → result (option Q)) (l : list A) : result A :=
  match l with
  | [] => Raise ValueError
  | x :: l' => k ← key x; max_from key x k l'
  end.

Fixpoint min_from {A} (key : A → result (option Q)) (best : A) (bestk : option Q)
    (l : list A) : result A :=
  match l with
  | [] => Ok best
  | x :: l' =>
      k ← key x;
      if py_lt k bestk then min_from key x k l' else min_from key best bestk l'
  end.

Definition py_min {A} (key : A → result (option Q)) (l : list A) : result A :=
  match l with
  | [] => Raise ValueError
  | x :: l' => k ← key x; min_from key x k l'
  end.

(** [max(player_pct_cols, key=lambda m: row[m])] and its [min] twin. *)
Definition best (df : DataFrame) (r : Row) (pct_cols : list string) : result string :=
  py_max (getitem (columns df) (base r)) pct_cols.

Definition worst (df : DataFrame) (r : Row) (pct_cols : list string) : result string :=
  py_min (getitem (columns df) (base r)) pct_cols.

(** What the left column shows under the header. *)
Inductive story :=
  | BestWorst (best_label : string) (best_value : option Q)
              (worst_label : string) (worst_value : option Q)
  | Info (msg : string).

Definition story_splitter (df : DataFrame) (r : Row) (pct_cols : list string)
  : result story :=
  match pct_cols with
  | [] => Ok (Info "No percentile data available for this player.")
  | _ =>
      b ← best df r pct_cols;
      w ← worst df r pct_cols;
      bl ← dict_get LABEL b;
      bv ← getitem (columns df) (base r) b;
      wl ← dict_get LABEL w;
      wv ← getitem (columns df) (base r) w;
      Ok (BestWorst bl bv wl wv)
  end.

(** ** Leaderboard (lines 147-168) *)

(** The order of [sort_values(..., ascending=False)] with the default
    [na_position="last"]: greater values first, NaN after every value. *)
Definition desc (a b : option Q) : Prop :=
  match a, b with
  | Some x, Some y => (y <= x)%Q
  | _, None => True
  | None, Some _ => False
  end.

#[global] Instance desc_dec : RelDecision desc.
Proof.
  intros [x|] [y|]; simpl; try (left; exact I); try (right; tauto).
  destruct (Qlt_le_dec x y) as [H|H]; [right | left; exact H].
  intros H'. exact (Qlt_not_le _ _ H H').
Defined.

(** [DataFrame.sort_values(by, ascending=False)] is called with the default
    [kind="quicksort"]: what pandas promises for it is a rearrangement of the
    rows that is ordered by the column; the relative order of rows with equal
    keys is promised only for the kinds "mergesort" and "stable".  A
    [Sorter] is any function within that promise. *)
Record Sorter := mkSorter {
  sort_values_desc : (Row → option Q) → list Row → list Row;
  sort_values_perm : ∀ key l, sort_values_desc key l ≡ₚ l;
  sort_values_sorted : ∀ key l,
    StronglySorted (λ a b, desc (key a) (key b)) (sort_values_desc key l)
}.

(** The row pool of the leaderboard (lines 159-161). *)
Definition lb_pool (df : DataFrame) (lb_team : option string) (sort_metric : string)
  : result DataFrame :=
  let pool := candidates df lb_team in
  i ← col_pos (columns pool) sort_metric;
  Ok (mkDataFrame (columns pool)
        (filter (λ r, notna (cell_at (base r) i) = true) (rows pool))).

Record LeaderRow := mkLeaderRow {
  l_Player : string;
  l_Team : string;
  l_metric : option Q;
  l_disagreement_index : option sqrtQ
}.

Record Leaderboard := mkLeaderboard {
  l_columns : list string;
  l_rows : list LeaderRow
}.

(** [[["Player", "Team", sort_metric, "disagreement_index"]]] on one row. *)
Definition leader_row (i : nat) (r : Row) : LeaderRow :=
  mkLeaderRow (Player (base r)) (Team (base r)) (cell_at (base r) i)
    (disagreement_index r).

(** Lines 163-168: sort, project, head, rename. *)
Definition leader (S : Sorter) (pool : DataFrame) (sort_metric : string) (top_n : nat)
  : result Leaderboard :=
  i ← col_pos (columns pool) sort_metric;
  let by_metric := sort_values_desc S (λ r, cell_at (base r) i) (rows pool) in
  let head := take top_n (leader_row i <$> by_metric) in
  label ← dict_get LABEL sort_metric;
  Ok (mkLeaderboard ["Player"; "Team"; label; "disagreement_index"] head).

Definition leaderboard (S : Sorter) (df : DataFrame) (lb_team : option string)
    (sort_metric : string) (top_n : nat) : result Leaderboard :=
  pool ← lb_pool df lb_team sort_metric;
  leader S pool sort_metric top_n.

(** ** One run of the script

    The frames the script holds are objects: [candidates] is the very object
    [df] when the team is "(All)", and a new frame otherwise.  [heap] maps
    references to frame objects, [cache] is the store of [@st.cache_data] for
    [load_df] (keyed by the argument), and [files] is what [pd.read_csv]
    parses at each path. *)

Definition loc := nat.

Record world := mkWorld {
  files : gmap string CsvFrame;
  cache : gmap string DataFrame;
  heap : gmap loc DataFrame
}.

Definition script (A : Type) : Type := world → result (A * world).

#[global] Instance script_ret : MRet script := λ A a w, Ok (a, w).
#[global] Instance script_bind : MBind script := λ A B f m w,
  match m w with
  | Ok (a, w') => f a w'
  | Raise e => Raise e
  end.

(** A computation that touches no object. *)
Definition pure {A} (r : result A) : script A := λ w,
  match r with
  | Ok a => Ok (a, w)
  | Raise e => Raise e
  end.

(** A new frame object. *)
Definition new_frame (df : DataFrame) : script loc := λ w,
  let l := fresh (dom (heap w)) in
  Ok (l, mkWorld (files w) (cache w) (<[l := df]> (heap w))).

(** Reading through a reference; the script only holds references it was
    given by [new_frame], the [KeyError] stands for any other. *)
Definition frame (l : loc) : script DataFrame := λ w,
  match heap w !! l with
  | Some df => Ok (df, w)
  | None => Raise (KeyError "<frame>")
  end.

(** [pd.read_csv(csv_path)] *)
Definition read_csv (csv_path : string) : script CsvFrame := λ w,
  match files w !! csv_path with
  | Some csv => Ok (csv, w)
  | None => Raise (FileNotFoundError csv_path)
  end.

Definition cache_get (csv_path : string) : script (option DataFrame) := λ w,
  Ok (cache w !! csv_path, w).

Definition cache_put (csv_path : string) (df : DataFrame) : script unit := λ w,
  Ok ((), mkWorld (files w) (<[csv_path := df]> (cache w)) (heap w)).

(** [@st.cache_data def load_df(csv_path)]: a stored value is handed out as a
    copy; on a miss the body runs and its value is stored. *)
Definition load_df (csv_path : string) : script loc :=
  hit ← cache_get csv_path;
  match hit with
  | Some df => new_frame df
  | None =>
      csv ← read_csv csv_path;
      df ← pure (load_df_body csv);
      _ ← cache_put csv_path df;
      new_frame df
  end.

(** Line 61: [df = load_df(DATA_FILES[season])] *)
Definition load_season (season : string) : script loc :=
  csv_path ← pure (dict_get DATA_FILES season);
  load_df csv_path.

(** Line 65 on objects. *)
Definition candidates_obj (df : loc) (team : option string) : script loc :=
  if decide (team = Some "(All)") then mret df
  else d ← frame df; new_frame (candidates d team).

(** Lines 159-161 on objects: each indexing makes a new frame. *)
Definition lb_pool_obj (df : loc) (lb_team : option string) (sort_metric : string)
  : script loc :=
  pool ← candidates_obj df lb_team;
  p ← frame pool;
  i ← pure (col_pos (columns p) sort_metric);
  new_frame (mkDataFrame (columns p)
               (filter (λ r, notna (cell_at (base r) i) = true) (rows p))).

(** What the user set in the widgets. *)
Record inputs := mkInputs {
  team_choice : nat;
  player_choice : nat;
  sort_metric_choice : nat;
  lb_team_choice : nat;
  top_n : nat
}.

(** What one run hands to the page. *)
Record page := mkPage {
  p_row : Row;
  p_innings : Z;
  p_age : option Q;
  p_pct_cols : list string;
  p_story : story;
  p_raw : list (option Q);
  p_pct : list (option Q);
  p_leader : Leaderboard
}.

(** [int(x)] on a float: NaN cannot be converted, anything else is cut
    towards zero. *)
Definition py_int (x : option Q) : result Z :=
  match x with
  | Some q => Ok (Z.quot (Qnum q) (Z.pos (Qden q)))
  | None => Raise ValueError
  end.

(** Lines 63-176, given the loaded table [df]. *)
Definition render (S : Sorter) (ui : inputs) (df : loc) : script page :=
  d ← frame df;
  let team := selectbox (team_options d) (team_choice ui) in
  cand ← candidates_obj df team;
  c ← frame cand;
  let player := selectbox (player_options c) (player_choice ui) in
  r ← pure (row c player);
  pct_cols ← pure (player_pct_cols d r);
  inn ← pure (getitem (columns d) (base r) "Inn" ≫= py_int);
  age ← pure (getitem (columns d) (base r) "Age");
  st ← pure (story_splitter d r pct_cols);
  raw ← pure (mapM (getitem (columns d) (base r)) RAW_METRICS);
  pct ← pure (mapM (getitem (columns d) (base r)) PCT_METRICS);
  sort_metric ← pure (match selectbox PCT_METRICS (sort_metric_choice ui) with
                      | Some m => Ok m
                      | None => Raise (KeyError "None")
                      end);
  let lb_team := selectbox (team_options d) (lb_team_choice ui) in
  pool ← lb_pool_obj df lb_team sort_metric;
  p ← frame pool;
  ld ← pure (leader S p sort_metric (top_n ui));
  mret (mkPage r inn age pct_cols st raw pct ld).

(** The whole script for one season. *)
Definition run (S : Sorter) (season : string) (ui : inputs) : script (loc * page) :=
  df ← load_season season;
  pg ← render S ui df;
  mret (df, pg).

(** * Properties *)

(** ** Column lookup *)

Lemma col_index_Some (c : string) (cols : list string) :
  c ∈ cols → ∃ i, col_index c cols = Some i ∧ cols !! i = Some c.
Proof.
  intros Hc. unfold col_index.
  destruct (list_find (λ c', c' = c) cols) as [[i c']|] eqn:E.
  - apply list_find_Some in E as (Hi & -> & _). exists i. auto.
  - apply list_find_None in E. rewrite Forall_forall in E.
    exfalso. exact (E c Hc eq_refl).
Qed.

Lemma col_index_None (c : string) (cols : list string) :
  c ∉ cols → col_index c cols = None.
Proof.
  intros Hc. unfold col_index.
  destruct (list_find (λ c', c' = c) cols) as [[i c']|] eqn:E; [|done].
  apply list_find_Some in E as (Hi & -> & _).
  exfalso. apply Hc. eapply list_elem_of_lookup_2, Hi.
Qed.

Lemma col_pos_Ok (cols : list string) (c : string) :
  c ∈ cols ↔ ∃ i, col_pos cols c = Ok i.
Proof.
  unfold col_pos. split.
  - intros (i & -> & _)%col_index_Some. eauto.
  - intros [i Hi]. destruct (decide (c ∈ cols)) as [|Hn]; [done|].
    rewrite (col_index_None _ _ Hn) in Hi. discriminate.
Qed.

Lemma col_pos_Raise (cols : list string) (c : string) :
  c ∉ cols → col_pos cols c = Raise (KeyError c).
Proof. intros Hn. unfold col_pos. by rewrite (col_index_None _ _ Hn). Qed.

(** The non-null value of a row in a column, if the column exists. *)
Definition value_of (cols : list string) (r : CsvRow) (c : string) : option Q :=
  i ← col_index c cols; cell_at r i.

Lemma getitem_Ok (cols : list string) (r : CsvRow) (c : string) :
  c ∈ cols → getitem cols r c = Ok (value_of cols r c).
Proof.
  intros (i & Hi & _)%col_index_Some.
  unfold getitem, col_pos, value_of. rewrite Hi. reflexivity.
Qed.

Lemma getitem_Raise (cols : list string) (r : CsvRow) (c : string) :
  c ∉ cols → getitem cols r c = Raise (KeyError c).
Proof. intros Hn. unfold getitem. by rewrite (col_pos_Raise _ _ Hn). Qed.

Lemma value_of_absent (cols : list string) (r : CsvRow) (c : string) :
  c ∉ cols → value_of cols r c = None.
Proof. intros Hn. unfold value_of. by rewrite (col_index_None _ _ Hn). Qed.

(** ** The disagreement index *)

(** The textbook sample 2, 4, 4, 4, 5, 5, 7, 9 has population variance 4
    (standard deviation 2); a NaN among the cells changes nothing. *)
Example nanvar_textbook :
  ∃ v, nanvar 0 [Some 2; Some 4; None; Some 4; Some 4; Some 5; Some 5; Some 7;
                 Some 9]%Q = Some v ∧ (v == 4)%Q.
Proof. eexists. split; [vm_compute; reflexivity | reflexivity]. Qed.

Example nanstd_no_value : nanstd 0 [None; None] = None.
Proof. reflexivity. Qed.

(** The non-null cells of a row of cells. *)
Definition dropna (xs : list (option Q)) : list Q := omap (λ x, x) xs.

(** The selection [df[existing_pct]] never fails: every label it asks for was
    kept because the frame has it. *)
Lemma select_filter_present (cols : list string) (r : CsvRow) (ms : list string) :
  select cols (filter (λ c, c ∈ cols) ms) r
  = Ok (value_of cols r <$> filter (λ c, c ∈ cols) ms).
Proof.
  unfold select. induction ms as [|m ms IH]; [reflexivity|].
  rewrite filter_cons. destruct (decide (m ∈ cols)) as [Hm|Hm]; [|exact IH].
  cbn [mapM fmap list_fmap]. rewrite (getitem_Ok _ _ _ Hm). cbn.
  rewrite IH. reflexivity.
Qed.

Lemma present_values (cols : list string) (r : CsvRow) (ms : list string) :
  dropna (value_of cols r <$> filter (λ c, c ∈ cols) ms)
  = omap (value_of cols r) ms.
Proof.
  unfold dropna. induction ms as [|m ms IH]; [reflexivity|].
  rewrite filter_cons. destruct (decide (m ∈ cols)) as [Hm|Hm].
  - cbn. rewrite IH. reflexivity.
  - rewrite IH. cbn. rewrite (value_of_absent _ _ _ Hm). reflexivity.
Qed.

(** The statement of the specification, over the reals: the population
    standard deviation of a list of values divides by N; it is undefined for
    no value. *)
Definition Rsum (xs : list R) : R := foldr Rplus 0%R xs.

Definition mean (xs : list R) : R := (Rsum xs / INR (length xs))%R.

Definition population_std (xs : list R) : option R :=
  match xs with
  | [] => None
  | _ => Some (sqrt (Rsum ((λ x, (x - mean xs) ^ 2)%R <$> xs) / INR (length xs)))
  end.

(** The real number a [sqrtQ] stands for. *)
Definition sqrt_val (s : sqrtQ) : R := sqrt (Q2R (radicand s)).

(** The percentile values of a row that the specification speaks of: the
    column is in the file and the cell is not null, in the order of
    [PCT_METRICS]. *)
Definition pct_values (cols : list string) (r : CsvRow) : list Q :=
  omap (value_of cols r) PCT_METRICS.

Lemma nancount_dropna (xs : list (option Q)) : nancount xs = length (dropna xs).
Proof.
  unfold nancount, dropna. induction xs as [|[x|] xs IH]; [reflexivity| |].
  - rewrite filter_cons_True by eauto. cbn. by rewrite IH.
  - rewrite filter_cons_False by (intros [? ?]; discriminate). exact IH.
Qed.

Lemma Q2R_nansum (xs : list (option Q)) :
  Q2R (nansum xs) = Rsum (Q2R <$> dropna xs).
Proof.
  unfold dropna. induction xs as [|[x|] xs IH]; cbn.
  - apply RMicromega.Q2R_0.
  - rewrite Q2R_plus. fold (nansum xs). rewrite IH. reflexivity.
  - rewrite Q2R_plus. fold (nansum xs). rewrite IH, RMicromega.Q2R_0. unfold Rsum. lra.
Qed.

Lemma Q2R_nansum_sqdev (avg : Q) (xs : list (option Q)) :
  Q2R (nansum (sqdev avg <$> xs))
  = Rsum ((λ x, (x - Q2R avg) ^ 2)%R <$> (Q2R <$> dropna xs)).
Proof.
  unfold dropna. induction xs as [|[x|] xs IH]; cbn.
  - apply RMicromega.Q2R_0.
  - rewrite Q2R_plus. fold (nansum (sqdev avg <$> xs)). rewrite IH.
    rewrite Q2R_mult, Q2R_minus. unfold Rsum. cbn. lra.
  - rewrite Q2R_plus. fold (nansum (sqdev avg <$> xs)). rewrite IH.
    rewrite RMicromega.Q2R_0. unfold Rsum. cbn. lra.
Qed.

Lemma Q2R_Qnat (n : nat) : Q2R (Qnat n) = INR n.
Proof.
  unfold Qnat, Q2R. cbn. rewrite INR_IZR_INZ. lra.
Qed.

Lemma Qnat_nonzero (n : nat) : n ≠ 0 → ¬ (Qnat n == 0)%Q.
Proof.
  intros Hn H. unfold Qnat, Qeq in H. cbn in H. lia.
Qed.

Lemma population_std_nonempty (xs : list R) :
  xs ≠ [] →
  population_std xs
  = Some (sqrt (Rsum ((λ x, (x - mean xs) ^ 2)%R <$> xs) / INR (length xs))).
Proof. destruct xs; [congruence | reflexivity]. Qed.

(** [nanstd] with [ddof = 0] is the population standard deviation of the
    non-null cells. *)
Lemma nanstd_population_std (xs : list (option Q)) :
  sqrt_val <$> nanstd 0 xs = population_std (Q2R <$> dropna xs).
Proof.
  unfold nanstd, nanvar. rewrite nancount_dropna.
  set (n := length (dropna xs)).
  destruct (decide (n ≤ 0)) as [Hle|Hgt].
  - assert (E : dropna xs = []) by (apply length_zero_iff_nil; unfold n in Hle; lia).
    rewrite E. reflexivity.
  - assert (Hn : n ≠ 0) by lia.
    rewrite population_std_nonempty.
    2:{ intros E%fmap_nil_inv. apply Hn. unfold n. by rewrite E. }
    cbn [fmap option_fmap option_map]. unfold sqrt_val. cbn [radicand].
    replace (n - 0) with n by lia.
    rewrite (Q2R_div _ _ (Qnat_nonzero _ Hn)), Q2R_nansum_sqdev.
    rewrite (Q2R_div _ _ (Qnat_nonzero _ Hn)), Q2R_nansum, !Q2R_Qnat.
    unfold mean. rewrite length_fmap. fold n. reflexivity.
Qed.

Lemma mapM_Ok_fmap {A B} (f : A → result B) (g : A → B) (l : list A) :
  (∀ x, x ∈ l → f x = Ok (g x)) → mapM f l = Ok (g <$> l).
Proof.
  induction l as [|x l IH]; intros Hf; [reflexivity|].
  cbn. rewrite Hf by left. cbn. rewrite IH; [reflexivity|].
  intros y Hy. apply Hf. by right.
Qed.

(** The value [load_df] computes for one row. *)
Definition row_std (cols : list string) (r : CsvRow) : option sqrtQ :=
  nanstd 0 (value_of cols r <$> existing_pct cols).

Lemma load_row_Ok (cols : list string) (r : CsvRow) :
  load_row cols r = Ok (mkRow r (row_std cols r)).
Proof.
  unfold load_row, existing_pct. rewrite select_filter_present. reflexivity.
Qed.

Lemma load_df_body_Ok (csv : CsvFrame) :
  load_df_body csv
  = Ok (mkDataFrame (csv_columns csv)
          ((λ r, mkRow r (row_std (csv_columns csv) r)) <$> csv_rows csv)).
Proof.
  unfold load_df_body.
  rewrite (mapM_Ok_fmap _ (λ r, mkRow r (row_std (csv_columns csv) r))).
  - reflexivity.
  - intros r _. apply load_row_Ok.
Qed.

Lemma row_std_population_std (cols : list string) (r : CsvRow) :
  sqrt_val <$> row_std cols r = population_std (Q2R <$> pct_values cols r).
Proof.
  unfold row_std, existing_pct, pct_values.
  rewrite nanstd_population_std, present_values. reflexivity.
Qed.

Lemma population_std_one (x : R) : population_std [x] = Some 0%R.
Proof.
  unfold population_std, mean, Rsum. cbn. f_equal.
  transitivity (sqrt 0); [f_equal; field | apply sqrt_0].
Qed.

(** C1.  [load_df] always yields a table, row for row over the file; the
    [disagreement_index] of every row is the population standard deviation
    (divide by N) of the percentile values whose column is in the file and
    whose cell is not null in that row; it is null when there is no such
    value, and 0 when there is exactly one. *)
Theorem disagreement_index_population_std (csv : CsvFrame) :
  ∃ df,
    load_df_body csv = Ok df
    ∧ columns df = csv_columns csv
    ∧ base <$> rows df = csv_rows csv
    ∧ ∀ r, r ∈ rows df →
        let xs := pct_values (csv_columns csv) (base r) in
        sqrt_val <$> disagreement_index r = population_std (Q2R <$> xs)
        ∧ (xs = [] → disagreement_index r = None)
        ∧ (∀ x, xs = [x] → sqrt_val <$> disagreement_index r = Some 0%R).
Proof.
  eexists. split; [apply load_df_body_Ok|]. cbn [columns rows].
  split; [reflexivity|]. split.
  - rewrite <- list_fmap_compose. apply list_fmap_id.
  - intros r (c & -> & _)%list_elem_of_fmap. cbn [base disagreement_index].
    pose proof (row_std_population_std (csv_columns csv) c) as Hstd.
    repeat split.
    + exact Hstd.
    + intros E. rewrite E in Hstd. destruct (row_std _ c); [discriminate|done].
    + intros x E. rewrite Hstd, E. apply population_std_one.
Qed.

(** ** The available percentile metrics *)

(** A metric has data for a row: its column is in the frame and the cell is
    not null. *)
Definition has_data (cols : list string) (r : Row) (m : string) : Prop :=
  is_Some (value_of cols (base r) m).

#[global] Instance has_data_dec cols r m : Decision (has_data cols r m).
Proof. unfold has_data. apply _. Defined.

Lemma has_data_getitem (cols : list string) (r : Row) (m : string) :
  has_data cols r m ↔ m ∈ cols ∧ ∃ q, getitem cols (base r) m = Ok (Some q).
Proof.
  unfold has_data. split.
  - intros [q Hq]. destruct (decide (m ∈ cols)) as [Hm|Hm].
    + split; [done|]. exists q. by rewrite getitem_Ok, Hq.
    + by rewrite value_of_absent in Hq.
  - intros [Hm [q Hq]]. rewrite getitem_Ok in Hq by done.
    exists q. congruence.
Qed.

Lemma pct_cols_of_Ok (cols : list string) (r : Row) (ms : list string) :
  pct_cols_of cols r ms = Ok (filter (has_data cols r) ms).
Proof.
  induction ms as [|m ms IH]; [reflexivity|].
  cbn [pct_cols_of]. rewrite IH, filter_cons.
  destruct (decide (has_data cols r m)) as [Hd|Hd].
  - apply has_data_getitem in Hd as [Hm [q Hq]].
    rewrite decide_True, Hq by done. reflexivity.
  - destruct (decide (m ∈ cols)) as [Hm|Hm]; [|reflexivity].
    rewrite (getitem_Ok _ _ _ Hm).
    destruct (value_of cols (base r) m) as [q|] eqn:E; [|reflexivity].
    exfalso. apply Hd. unfold has_data. rewrite E. eauto.
Qed.

Lemma PCT_METRICS_NoDup : NoDup PCT_METRICS.
Proof. apply (bool_decide_unpack _). vm_compute. exact I. Qed.

(** C6.  [player_pct_cols] always returns a list (it cannot raise); a metric
    is in it exactly when it is one of the six percentile metrics, its column
    is in the frame and the row's cell is not null; the list keeps the order
    of [PCT_METRICS], whose labels read OAA, DRS, Total Zone, DRP,
    Fielding %, FRV; and the empty list is a regular outcome, which the page
    answers with a notice instead of an exception. *)
Theorem player_pct_cols_available (df : DataFrame) (r : Row) :
  ∃ l,
    player_pct_cols df r = Ok l
    ∧ (∀ m, m ∈ l ↔
         m ∈ PCT_METRICS ∧ m ∈ columns df
         ∧ ∃ q, getitem (columns df) (base r) m = Ok (Some q))
    ∧ l `sublist_of` PCT_METRICS
    ∧ NoDup l
    ∧ mapM (dict_get LABEL) PCT_METRICS
      = Ok ["OAA (pct)"; "DRS (pct)"; "Total Zone (pct)"; "DRP (pct)";
            "Fielding % (pct)"; "FRV (pct)"]
    ∧ (l = [] ↔ pct_values (columns df) (base r) = [])
    ∧ story_splitter df r []
      = Ok (Info "No percentile data available for this player.").
Proof.
  exists (filter (has_data (columns df) r) PCT_METRICS).
  split; [apply pct_cols_of_Ok|]. split; [|split; [|split; [|split; [|split]]]].
  - intros m. rewrite list_elem_of_filter, has_data_getitem. tauto.
  - apply sublist_filter.
  - apply NoDup_filter, PCT_METRICS_NoDup.
  - vm_compute. reflexivity.
  - unfold pct_values.
    induction PCT_METRICS as [|m ms IH]; [done|].
    rewrite filter_cons. cbn [omap list_omap].
    destruct (decide (has_data (columns df) r m)) as [Hd|Hd].
    + destruct Hd as [q ->]. split; discriminate.
    + destruct (value_of (columns df) (base r) m) as [q|] eqn:E; [|exact IH].
      exfalso. apply Hd. unfold has_data. rewrite E. eauto.
  - reflexivity.
Qed.

(** ** Best and worst metric *)

Lemma Qltb_lt (x y : Q) : Qltb x y = true ↔ (x < y)%Q.
Proof.
  unfold Qltb. rewrite negb_true_iff, <- not_true_iff_false, Qle_bool_iff.
  split; [apply Qnot_le_lt | apply Qlt_not_le].
Qed.

(** The scan that both [max] and [min] perform, on keys that are values:
    the running element is replaced when [better] says so. *)
Fixpoint scan {A} (better : Q → Q → bool) (v : A → Q) (best : A) (l : list A) : A :=
  match l with
  | [] => best
  | x :: l' =>
      if better (v best) (v x) then scan better v x l' else scan better v best l'
  end.

Lemma max_from_scan {A} (key : A → result (option Q)) (v : A → Q) (l : list A) :
  ∀ b, (∀ x, x ∈ l → key x = Ok (Some (v x))) →
       max_from key b (Some (v b)) l = Ok (scan Qltb v b l).
Proof.
  induction l as [|x l IH]; intros b Hk; [reflexivity|].
  cbn. rewrite Hk by left. cbn.
  destruct (Qltb (v b) (v x)); apply IH; intros y Hy; apply Hk; by right.
Qed.

Lemma min_from_scan {A} (key : A → result (option Q)) (v : A → Q) (l : list A) :
  ∀ b, (∀ x, x ∈ l → key x = Ok (Some (v x))) →
       min_from key b (Some (v b)) l = Ok (scan (λ p q, Qltb q p) v b l).
Proof.
  induction l as [|x l IH]; intros b Hk; [reflexivity|].
  cbn. rewrite Hk by left. cbn.
  destruct (Qltb (v x) (v b)); apply IH; intros y Hy; apply Hk; by right.
Qed.

Section Scan.
Context {A : Type} (v : A → Q).
(** [lt p q]: the value [q] is strictly better than [p]. *)
Context (lt : Q → Q → Prop) (better : Q → Q → bool).
Hypothesis better_lt : ∀ p q, better p q = true ↔ lt p q.
Hypothesis lt_asym : ∀ p q, lt p q → ¬ lt q p.
Hypothesis not_lt_lt : ∀ p q s, ¬ lt q p → lt q s → lt p s.

(** [m] is the first best element of [l]: everything before it is strictly
    worse, nothing after it is better. *)
Definition first_best (l : list A) (m : A) : Prop :=
  ∃ l1 l2, l = l1 ++ m :: l2
    ∧ (∀ x, x ∈ l1 → lt (v x) (v m))
    ∧ (∀ x, x ∈ l2 → ¬ lt (v m) (v x)).

Lemma scan_first_best (l : list A) :
  ∀ pre mid b,
    (∀ x, x ∈ pre → lt (v x) (v b)) →
    (∀ x, x ∈ mid → ¬ lt (v b) (v x)) →
    first_best (pre ++ b :: mid ++ l) (scan better v b l).
Proof.
  induction l as [|x l IH]; intros pre mid b Hpre Hmid.
  - exists pre, mid. rewrite app_nil_r. auto.
  - cbn [scan]. destruct (better (v b) (v x)) eqn:E.
    + apply better_lt in E.
      specialize (IH (pre ++ b :: mid) [] x).
      rewrite <- app_assoc in IH. cbn in IH. apply IH.
      * intros y [Hy|Hy]%elem_of_app.
        -- eapply not_lt_lt; [|exact E]. apply lt_asym, Hpre, Hy.
        -- apply elem_of_cons in Hy as [->|Hy]; [exact E|].
           eapply not_lt_lt; [|exact E]. apply Hmid, Hy.
      * intros y Hy. inversion Hy.
    + specialize (IH pre (mid ++ [x]) b).
      rewrite <- app_assoc in IH. cbn in IH. apply IH; [exact Hpre|].
      intros y [Hy|Hy]%elem_of_app; [apply Hmid, Hy|].
      apply list_elem_of_singleton in Hy as ->.
      rewrite <- better_lt, E. discriminate.
Qed.

Lemma first_best_elem_of (l : list A) (m : A) : first_best l m → m ∈ l.
Proof. intros (l1 & l2 & -> & _). apply elem_of_app. right. left. Qed.

Lemma first_best_bound (l : list A) (m x : A) :
  first_best l m → x ∈ l → ¬ lt (v m) (v x).
Proof.
  intros (l1 & l2 & -> & H1 & H2) [Hx|Hx]%elem_of_app.
  - apply lt_asym, H1, Hx.
  - apply elem_of_cons in Hx as [->|Hx]; [|apply H2, Hx].
    intros H. exact (lt_asym _ _ H H).
Qed.

(** When no element is strictly better than another, the first best one is
    the head. *)
Lemma first_best_flat (l : list A) (m : A) :
  first_best l m → (∀ x y, x ∈ l → y ∈ l → ¬ lt (v x) (v y)) → head l = Some m.
Proof.
  intros (l1 & l2 & -> & H1 & _) Hflat.
  destruct l1 as [|x l1]; [reflexivity|]. exfalso.
  apply (Hflat x m).
  - left.
  - apply elem_of_app. right. left.
  - apply H1. left.
Qed.
End Scan.

(** The percentile of a row for a metric that has data. *)
Definition pct (df : DataFrame) (r : Row) (m : string) : Q :=
  default 0%Q (value_of (columns df) (base r) m).

Lemma has_data_key (df : DataFrame) (r : Row) (m : string) :
  has_data (columns df) r m →
  getitem (columns df) (base r) m = Ok (Some (pct df r m)).
Proof.
  intros Hd. pose proof Hd as [Hm _]%has_data_getitem.
  rewrite getitem_Ok by done. unfold pct. by destruct Hd as [q ->].
Qed.

Lemma Qlt_asym (p q : Q) : (p < q)%Q → ¬ (q < p)%Q.
Proof. intros H1 H2. exact (Qlt_irrefl _ (Qlt_trans _ _ _ H1 H2)). Qed.

Lemma Qnot_lt_lt (p q s : Q) : ¬ (q < p)%Q → (q < s)%Q → (p < s)%Q.
Proof. intros H1%Qnot_lt_le H2. exact (Qle_lt_trans _ _ _ H1 H2). Qed.

Lemma Qnot_gt_gt (p q s : Q) : ¬ (p < q)%Q → (s < q)%Q → (s < p)%Q.
Proof. intros H1%Qnot_lt_le H2. exact (Qlt_le_trans _ _ _ H2 H1). Qed.

Lemma py_max_first_best (df : DataFrame) (r : Row) (l : list string) :
  (∀ m, m ∈ l → has_data (columns df) r m) → l ≠ [] →
  ∃ b, best df r l = Ok b ∧ first_best (pct df r) Qlt l b.
Proof.
  intros Hd Hl. destruct l as [|x l]; [done|].
  exists (scan Qltb (pct df r) x l). split.
  - unfold best, py_max. rewrite has_data_key by (apply Hd; left). cbn.
    apply max_from_scan. intros m Hm. apply has_data_key, Hd. by right.
  - apply (scan_first_best (pct df r) Qlt Qltb Qltb_lt Qlt_asym Qnot_lt_lt l [] []);
      intros y Hy; inversion Hy.
Qed.

Lemma py_min_first_best (df : DataFrame) (r : Row) (l : list string) :
  (∀ m, m ∈ l → has_data (columns df) r m) → l ≠ [] →
  ∃ w, worst df r l = Ok w ∧ first_best (pct df r) (λ p q, (q < p)%Q) l w.
Proof.
  intros Hd Hl. destruct l as [|x l]; [done|].
  exists (scan (λ p q, Qltb q p) (pct df r) x l). split.
  - unfold worst, py_min. rewrite has_data_key by (apply Hd; left). cbn.
    apply min_from_scan. intros m Hm. apply has_data_key, Hd. by right.
  - apply (scan_first_best (pct df r) (λ p q, (q < p)%Q) (λ p q, Qltb q p)
             (λ p q, Qltb_lt q p) (λ p q, Qlt_asym q p)
             (λ p q s, Qnot_gt_gt p q s) l [] []);
      intros y Hy; inversion Hy.
Qed.

(** C2.  For a row and its non-empty list [l] of available percentile
    metrics (in the order of [PCT_METRICS]): [best] and [worst] return
    members of [l]; every metric of [l] has a value, none above that of
    [best] and none below that of [worst]; every metric listed before [best]
    has a strictly smaller value and every metric listed before [worst] a
    strictly greater one (a tie goes to the first in canonical order); when
    all values are equal, both are the first metric of [l]. *)
Theorem best_worst_first_extremes (df : DataFrame) (r : Row) (l : list string) :
  player_pct_cols df r = Ok l →
  l ≠ [] →
  ∃ b w,
    best df r l = Ok b ∧ worst df r l = Ok w
    ∧ b ∈ l ∧ w ∈ l
    ∧ l `sublist_of` PCT_METRICS
    ∧ (∀ m, m ∈ l →
         getitem (columns df) (base r) m = Ok (Some (pct df r m))
         ∧ (pct df r m <= pct df r b)%Q ∧ (pct df r w <= pct df r m)%Q)
    ∧ (∃ l1 l2, l = l1 ++ b :: l2 ∧ ∀ m, m ∈ l1 → (pct df r m < pct df r b)%Q)
    ∧ (∃ l1 l2, l = l1 ++ w :: l2 ∧ ∀ m, m ∈ l1 → (pct df r w < pct df r m)%Q)
    ∧ ((∀ m m', m ∈ l → m' ∈ l → (pct df r m == pct df r m')%Q) →
       head l = Some b ∧ head l = Some w).
Proof.
  intros Hl Hne. unfold player_pct_cols in Hl. rewrite pct_cols_of_Ok in Hl.
  injection Hl as <-.
  set (l := filter (has_data (columns df) r) PCT_METRICS) in *.
  assert (Hd : ∀ m, m ∈ l → has_data (columns df) r m).
  { intros m Hm. by apply list_elem_of_filter in Hm as [? _]. }
  destruct (py_max_first_best df r l Hd Hne) as (b & Hb & Fb).
  destruct (py_min_first_best df r l Hd Hne) as (w & Hw & Fw).
  exists b, w. split; [exact Hb|]. split; [exact Hw|].
  split; [eapply first_best_elem_of, Fb|].
  split; [eapply first_best_elem_of, Fw|].
  split; [apply sublist_filter|].
  split; [|split; [|split]].
  - intros m Hm. split; [apply has_data_key, Hd, Hm|]. split.
    + apply Qnot_lt_le.
      exact (first_best_bound _ _ (λ p q, Qlt_asym p q) l b m Fb Hm).
    + apply Qnot_lt_le.
      exact (first_best_bound _ (λ p q, (q < p)%Q) (λ p q, Qlt_asym q p) l w m Fw Hm).
  - destruct Fb as (l1 & l2 & E & H1 & _). exists l1, l2. auto.
  - destruct Fw as (l1 & l2 & E & H1 & _). exists l1, l2. auto.
  - intros Heq. split.
    + apply (first_best_flat _ _ l b Fb). intros x y Hx Hy Hlt.
      apply (Qlt_not_eq _ _ Hlt), Heq; done.
    + apply (first_best_flat _ _ l w Fw). intros x y Hx Hy Hlt.
      apply (Qlt_not_eq _ _ Hlt), Heq; done.
Qed.

(** A row with a tie at the top and a tie at the bottom. *)
Definition tie_cols : list string :=
  ["outs_above_average_percentile"; "Rdrs_percentile"; "Rtot_percentile";
   "DRP_percentile"; "Fld%_percentile"].

Definition tie_row : Row :=
  mkRow (mkCsvRow "D" "TeamZ" [Some 75%Q; Some 75%Q; Some 20%Q; None; Some 20%Q])
    None.

Definition tie_df : DataFrame := mkDataFrame tie_cols [tie_row].

Lemma best_worst_first_extremes_witness :
  best tie_df tie_row
    ["outs_above_average_percentile"; "Rdrs_percentile"; "Rtot_percentile";
     "Fld%_percentile"] = Ok "outs_above_average_percentile"
  ∧ worst tie_df tie_row
    ["outs_above_average_percentile"; "Rdrs_percentile"; "Rtot_percentile";
     "Fld%_percentile"] = Ok "Rtot_percentile".
Proof.
  destruct (best_worst_first_extremes tie_df tie_row
              ["outs_above_average_percentile"; "Rdrs_percentile";
               "Rtot_percentile"; "Fld%_percentile"])
    as (b & w & Hb & Hw & _); [vm_compute; reflexivity | discriminate |].
  split; reflexivity.
Defined.

(** ** Team filter *)

Lemma candidates_rows (df : DataFrame) (z : string) :
  z ≠ "(All)" →
  candidates df (Some z)
  = mkDataFrame (columns df) (filter (λ r, Team (base r) = z) (rows df)).
Proof.
  intros Hz. unfold candidates. rewrite decide_False by congruence.
  f_equal. apply list_filter_iff. intros r. split; congruence.
Qed.

(** C5.  [candidates] with "(All)" is the table itself; with any other team
    [z] it keeps the columns and exactly the rows whose team is [z], in their
    order; and a row is in the table if and only if it is in the filtered
    table of one of the teams that occur in the table. *)
Theorem candidates_team_filter (df : DataFrame) :
  candidates df (Some "(All)") = df
  ∧ (∀ z, z ≠ "(All)" →
       columns (candidates df (Some z)) = columns df
       ∧ rows (candidates df (Some z))
         = filter (λ r, Team (base r) = z) (rows df)
       ∧ ∀ r, r ∈ rows (candidates df (Some z)) ↔
              r ∈ rows df ∧ Team (base r) = z)
  ∧ (∀ r, r ∈ rows df ↔
          ∃ z, z ∈ ((λ r, Team (base r)) <$> rows df)
               ∧ r ∈ rows (candidates df (Some z))).
Proof.
  split; [reflexivity|]. split.
  - intros z Hz. rewrite (candidates_rows df z Hz). cbn [columns rows].
    split; [reflexivity|]. split; [reflexivity|].
    intros r. rewrite list_elem_of_filter. tauto.
  - intros r. split.
    + intros Hr. exists (Team (base r)). split.
      * apply list_elem_of_fmap. eauto.
      * destruct (decide (Team (base r) = "(All)")) as [E|E].
        -- rewrite E. exact Hr.
        -- rewrite (candidates_rows df _ E). cbn [rows].
           apply list_elem_of_filter. auto.
    + intros (z & _ & Hr). destruct (decide (z = "(All)")) as [->|E].
      * exact Hr.
      * rewrite (candidates_rows df _ E) in Hr. cbn [rows] in Hr.
        by apply list_elem_of_filter in Hr as [_ ?].
Qed.

(** ** Player resolution *)

Lemma filter_head {A} (P : A → Prop) `{∀ x, Decision (P x)} (l : list A) (a : A) :
  head (filter P l) = Some a ↔
  ∃ l1 l2, l = l1 ++ a :: l2 ∧ P a ∧ ∀ x, x ∈ l1 → ¬ P x.
Proof.
  induction l as [|y l IH].
  - split; [discriminate|]. intros (l1 & l2 & E & _).
    by destruct l1.
  - rewrite filter_cons. destruct (decide (P y)) as [Hy|Hy].
    + cbn. split.
      * intros [= ->]. exists [], l. split; [done|]. split; [done|].
        intros x Hx. inversion Hx.
      * intros (l1 & l2 & E & Ha & Hl1). destruct l1 as [|x l1].
        -- by injection E as -> _.
        -- injection E as -> _. exfalso. apply (Hl1 x); [left | done].
    + rewrite IH. split.
      * intros (l1 & l2 & -> & Ha & Hl1). exists (y :: l1), l2.
        split; [done|]. split; [done|].
        intros x [->|Hx]%elem_of_cons; auto.
      * intros (l1 & l2 & E & Ha & Hl1). destruct l1 as [|x l1].
        -- injection E as -> _. done.
        -- injection E as -> ->. exists l1, l2. split; [done|]. split; [done|].
           intros z Hz. apply Hl1. by right.
Qed.

Lemma filter_head_None {A} (P : A → Prop) `{∀ x, Decision (P x)} (l : list A) :
  head (filter P l) = None ↔ ∀ x, x ∈ l → ¬ P x.
Proof.
  rewrite head_None. split.
  - intros E x Hx HP. eapply filter_nil_not_elem_of; eauto.
  - intros Hl. induction l as [|y l IH]; [done|].
    rewrite filter_cons, decide_False by (apply Hl; left).
    apply IH. intros x Hx. apply Hl. by right.
Qed.

Lemma row_head (cand : DataFrame) (player : option string) :
  row cand player
  = match head (filter (λ r, Some (Player (base r)) = player) (rows cand)) with
    | Some r => Ok r
    | None => Raise IndexError
    end.
Proof.
  unfold row, iloc0, mask_player. cbn [rows].
  by destruct (filter _ (rows cand)).
Qed.

(** C7.  [row] returns the first row of the (possibly team-filtered) table
    whose [Player] is exactly the given name: the rows before it have another
    name; it raises IndexError, the script's "player not found", if and only
    if no row has that name, and it raises nothing else. *)
Theorem row_first_match (cand : DataFrame) (name : string) :
  (∀ r, row cand (Some name) = Ok r ↔
        ∃ l1 l2, rows cand = l1 ++ r :: l2
                 ∧ Player (base r) = name
                 ∧ ∀ x, x ∈ l1 → Player (base x) ≠ name)
  ∧ (row cand (Some name) = Raise IndexError ↔
     ∀ r, r ∈ rows cand → Player (base r) ≠ name)
  ∧ (∀ e, row cand (Some name) = Raise e → e = IndexError).
Proof.
  rewrite row_head.
  pose proof (filter_head (λ r, Some (Player (base r)) = Some name) (rows cand)) as HS.
  pose proof (filter_head_None (λ r, Some (Player (base r)) = Some name) (rows cand)) as HN.
  destruct (head _) as [r0|].
  - split; [|split].
    + intros r. split.
      * intros [= ->]. destruct (proj1 (HS r) eq_refl) as (l1 & l2 & E & Hr & Hl1).
        exists l1, l2. split; [done|]. split; [congruence|].
        intros x Hx Hn. apply (Hl1 x Hx). congruence.
      * intros (l1 & l2 & E & Hr & Hl1). f_equal.
        assert (Some r0 = Some r) as [= ->]; [|done].
        apply HS. exists l1, l2. split; [done|]. split; [congruence|].
        intros x Hx Hn. apply (Hl1 x Hx). congruence.
    + split; [discriminate|]. intros Hn. exfalso.
      destruct (proj1 (HS r0) eq_refl) as (l1 & l2 & E & Hr & _).
      apply (Hn r0); [|congruence]. rewrite E. apply elem_of_app. right. left.
    + discriminate.
  - split; [|split].
    + intros r. split; [discriminate|].
      intros (l1 & l2 & E & Hr & _). exfalso.
      apply (proj1 HN eq_refl r); [|congruence].
      rewrite E. apply elem_of_app. right. left.
    + split; [|done]. intros _ r Hr Hn. apply (proj1 HN eq_refl r Hr). congruence.
    + by intros e [= <-].
Qed.

(** ** Leaderboard *)

(** *** Two sorters within the promise *)

Lemma desc_trans (a b c : option Q) : desc a b → desc b c → desc a c.
Proof.
  destruct a as [x|], b as [y|], c as [z|]; simpl; try tauto.
  intros Hxy Hyz. exact (Qle_trans _ _ _ Hyz Hxy).
Qed.

Lemma desc_total (a b : option Q) : desc a b ∨ desc b a.
Proof.
  destruct a as [x|], b as [y|]; simpl; try tauto.
  destruct (Qlt_le_dec x y) as [H|H]; [right; apply Qlt_le_weak, H | left; exact H].
Qed.


Definition desc_by (key : Row → option Q) : relation Row :=
  λ a b, desc (key a) (key b).
Definition asc_by (key : Row → option Q) : relation Row :=
  λ a b, desc (key b) (key a).

#[global] Instance desc_by_dec key : RelDecision (desc_by key).
Proof. intros a b. unfold desc_by. apply _. Defined.
#[global] Instance asc_by_dec key : RelDecision (asc_by key).
Proof. intros a b. unfold asc_by. apply _. Defined.

(** A stable kind: merge sort on the descending order itself. *)
Definition stable_sort (key : Row → option Q) (l : list Row) : list Row :=
  merge_sort (desc_by key) l.


Lemma stable_sort_perm key l : stable_sort key l ≡ₚ l.
Proof. apply merge_sort_Permutation. Qed.

Lemma stable_sort_sorted key l :
  StronglySorted (λ a b, desc (key a) (key b)) (stable_sort key l).
Proof.
  apply StronglySorted_merge_sort.
  - intros a b c. apply desc_trans.
  - intros a b. apply desc_total.
Qed.



Definition stable_sorter : Sorter :=
  mkSorter stable_sort stable_sort_perm stable_sort_sorted.


(** *** The example table of the leaderboard *)

Definition oaa_pct : string := "outs_above_average_percentile".

Definition csvA : CsvRow := mkCsvRow "A" "TeamX" [Some 90%Q].
Definition csvB : CsvRow := mkCsvRow "B" "TeamX" [Some 90%Q].
Definition csvC : CsvRow := mkCsvRow "C" "TeamY" [Some 40%Q].

Definition example_csv : CsvFrame := mkCsvFrame [oaa_pct] [csvA; csvB; csvC].



Lemma StronglySorted_lookup {A} (R : relation A) (l : list A) (i j : nat) (a b : A) :
  StronglySorted R l → i < j → l !! i = Some a → l !! j = Some b → R a b.
Proof.
  intros Hl. revert i j. induction Hl as [|x l Hl IH Hx]; intros i j Hij Hi Hj.
  - discriminate.
  - destruct j as [|j]; [lia|]. cbn in Hj. destruct i as [|i].
    + injection Hi as ->. rewrite Forall_forall in Hx.
      apply Hx. eapply list_elem_of_lookup_2, Hj.
    + cbn in Hi. apply (IH i j); [lia|done..].
Qed.

Lemma StronglySorted_take {A} (R : relation A) (l : list A) (n : nat) :
  StronglySorted R l → StronglySorted R (take n l).
Proof.
  intros Hl. rewrite <- (take_drop n l) in Hl.
  exact (StronglySorted_app_1_l _ _ _ Hl).
Qed.

(** The rows of the pool of the leaderboard for "(All)". *)
Definition with_metric (i : nat) (df : DataFrame) : list Row :=
  filter (λ r, notna (cell_at (base r) i) = true) (rows df).

Lemma leaderboard_all (S : Sorter) (df : DataFrame) (m : string) (n : nat) :
  leaderboard S df (Some "(All)") m n
  = (i ← col_pos (columns df) m;
     label ← dict_get LABEL m;
     Ok (mkLeaderboard ["Player"; "Team"; label; "disagreement_index"]
           (take n (leader_row i <$>
                      sort_values_desc S (λ r, cell_at (base r) i)
                        (with_metric i df))))).
Proof.
  unfold leaderboard, lb_pool, leader, candidates.
  rewrite decide_True by done.
  destruct (col_pos (columns df) m) as [i|e] eqn:E; [|reflexivity].
  cbn. rewrite E. reflexivity.
Qed.

Lemma PCT_METRICS_LABEL (m : string) :
  m ∈ PCT_METRICS → ∃ label, dict_get LABEL m = Ok label.
Proof.
  unfold PCT_METRICS. rewrite !elem_of_cons, elem_of_nil.
  intros H. repeat destruct H as [->|H]; [..|done]; eexists; vm_compute; reflexivity.
Qed.

(** C3.  The leaderboard for the team filter "(All)" is produced whenever the
    sort metric is one of the percentile metrics and a column of the table
    (for a metric that is no column, line 161 raises KeyError); what it
    returns has at most [n] rows (as many as there are rows with the metric,
    up to [n]), every returned row has a non-null value for the metric, a row
    listed earlier has a value at least as great as a row listed later, and
    the rows are the first [n] of a rearrangement of exactly the table's rows
    whose value for the metric is not null. *)
Theorem leaderboard_all_top_n (S : Sorter) (df : DataFrame) (m : string) (n : nat) :
  (m ∈ PCT_METRICS → m ∈ columns df →
   ∃ out, leaderboard S df (Some "(All)") m n = Ok out)
  ∧ (m ∉ columns df →
     leaderboard S df (Some "(All)") m n = Raise (KeyError m))
  ∧ (∀ out, leaderboard S df (Some "(All)") m n = Ok out →
       length (l_rows out) ≤ n
       ∧ (∀ lr, lr ∈ l_rows out → ∃ q, l_metric lr = Some q)
       ∧ (∀ i j a b, i < j →
            l_rows out !! i = Some a → l_rows out !! j = Some b →
            ∃ qa qb, l_metric a = Some qa ∧ l_metric b = Some qb ∧ (qb <= qa)%Q)
       ∧ ∃ k rs,
           col_pos (columns df) m = Ok k
           ∧ rs ≡ₚ filter (λ r, is_Some (cell_at (base r) k)) (rows df)
           ∧ l_rows out = leader_row k <$> take n rs
           ∧ length (l_rows out) = n `min` length rs).
Proof.
  rewrite leaderboard_all. split; [|split].
  - intros Hm (k & ->)%col_pos_Ok. destruct (PCT_METRICS_LABEL m Hm) as [lbl ->].
    cbn. eauto.
  - intros Hm. by rewrite col_pos_Raise.
  - intros out Hout.
    destruct (col_pos (columns df) m) as [k|] eqn:Ek; [|discriminate].
    destruct (dict_get LABEL m) as [lbl|]; [|discriminate].
    cbn in Hout. injection Hout as <-. cbn [l_rows].
    set (key := λ r : Row, cell_at (base r) k).
    set (rs := sort_values_desc S key (with_metric k df)).
    assert (Hperm : rs ≡ₚ with_metric k df) by apply sort_values_perm.
    assert (Hsorted : StronglySorted (λ a b, desc (key a) (key b)) rs)
      by apply sort_values_sorted.
    assert (Hnotna : ∀ r, r ∈ rs → ∃ q, key r = Some q).
    { intros r Hr. rewrite Hperm in Hr. unfold with_metric in Hr.
      apply list_elem_of_filter in Hr as [Hr _]. unfold key.
      destruct (cell_at (base r) k); [eauto | discriminate]. }
    assert (Hvals : ∀ lr, lr ∈ take n (leader_row k <$> rs) →
                          ∃ q, l_metric lr = Some q).
    { intros lr Hlr. rewrite <- fmap_take in Hlr.
      apply list_elem_of_fmap in Hlr as (r & -> & Hr).
      apply Hnotna. eapply subseteq_take, Hr. }
    split; [|split; [|split]].
    + rewrite length_take. lia.
    + exact Hvals.
    + intros i j a b Hij Ha Hb.
      destruct (Hvals a) as [qa Hqa]; [eapply list_elem_of_lookup_2, Ha|].
      destruct (Hvals b) as [qb Hqb]; [eapply list_elem_of_lookup_2, Hb|].
      exists qa, qb. split; [done|]. split; [done|].
      assert (Hd : desc (l_metric a) (l_metric b)).
      { apply (StronglySorted_lookup (λ x y, desc (l_metric x) (l_metric y))
                 (take n (leader_row k <$> rs)) i j a b); [|done..].
        apply StronglySorted_take.
        eapply StronglySorted_fmap, Hsorted. intros x y Hxy. exact Hxy. }
      rewrite Hqa, Hqb in Hd. exact Hd.
    + exists k, rs. split; [done|]. split; [|split].
      * rewrite Hperm. unfold with_metric.
        rewrite (list_filter_iff _ (λ r, is_Some (cell_at (base r) k)));
          [reflexivity|].
        intros r. destruct (cell_at (base r) k); cbn; split; try done; eauto.
      * by rewrite fmap_take.
      * by rewrite length_take, length_fmap.
Qed.

(** *** Rows with equal values *)








(** ** Runs of the script *)

Lemma bind_Ok {A B} (m : script A) (f : A → script B) (w w' : world) (b : B) :
  (m ≫= f) w = Ok (b, w') ↔ ∃ a w1, m w = Ok (a, w1) ∧ f a w1 = Ok (b, w').
Proof.
  unfold mbind, script_bind. split.
  - destruct (m w) as [[a w1]|e]; [eauto | discriminate].
  - intros (a & w1 & -> & Hf). exact Hf.
Qed.

Lemma pure_Ok {A} (r : result A) (w w' : world) (a : A) :
  pure r w = Ok (a, w') ↔ r = Ok a ∧ w' = w.
Proof.
  unfold pure. destruct r; split.
  - intros [= -> ->]. done.
  - intros [[= ->] ->]. done.
  - discriminate.
  - intros [? _]. discriminate.
Qed.

Lemma frame_Ok (l : loc) (w w' : world) (d : DataFrame) :
  frame l w = Ok (d, w') ↔ heap w !! l = Some d ∧ w' = w.
Proof.
  unfold frame. destruct (heap w !! l); split.
  - intros [= -> ->]. done.
  - intros [[= ->] ->]. done.
  - discriminate.
  - intros [? _]. discriminate.
Qed.

Lemma new_frame_Ok (d : DataFrame) (w w' : world) (l : loc) :
  new_frame d w = Ok (l, w') ↔
  l = fresh (dom (heap w))
  ∧ w' = mkWorld (files w) (cache w) (<[l := d]> (heap w)).
Proof.
  unfold new_frame. split.
  - intros [= <- <-]. done.
  - intros [-> ->]. done.
Qed.

Lemma fresh_loc (w : world) : heap w !! fresh (dom (heap w)) = None.
Proof. apply not_elem_of_dom, is_fresh. Qed.

(** [w'] is [w] with new objects only: the files and the cache are the same
    and every frame object of [w] is in [w'] with the same content. *)
Definition extends (w w' : world) : Prop :=
  files w' = files w ∧ cache w' = cache w ∧ heap w ⊆ heap w'.

Lemma extends_refl (w : world) : extends w w.
Proof. unfold extends. done. Qed.

Lemma extends_trans (w1 w2 w3 : world) :
  extends w1 w2 → extends w2 w3 → extends w1 w3.
Proof.
  intros (F1 & C1 & H1) (F2 & C2 & H2). unfold extends.
  split; [congruence|]. split; [congruence|]. by etrans.
Qed.

Lemma extends_lookup (w w' : world) (l : loc) (d : DataFrame) :
  extends w w' → heap w !! l = Some d → heap w' !! l = Some d.
Proof. intros (_ & _ & H) Hl. exact (lookup_weaken _ _ _ _ Hl H). Qed.

(** A computation mutates nothing: whenever it ends, the world it leaves
    extends the one it started in. *)
Definition frame_safe {A} (m : script A) : Prop :=
  ∀ w a w', m w = Ok (a, w') → extends w w'.

Lemma frame_safe_ret {A} (a : A) : frame_safe (mret a).
Proof. intros w a' w' [= _ <-]. apply extends_refl. Qed.

Lemma frame_safe_pure {A} (r : result A) : frame_safe (pure r).
Proof. intros w a w' [_ ->]%pure_Ok. apply extends_refl. Qed.

Lemma frame_safe_frame (l : loc) : frame_safe (frame l).
Proof. intros w a w' [_ ->]%frame_Ok. apply extends_refl. Qed.

Lemma frame_safe_new_frame (d : DataFrame) : frame_safe (new_frame d).
Proof.
  intros w l w' [-> ->]%new_frame_Ok. unfold extends. cbn.
  split; [done|]. split; [done|]. apply insert_subseteq, fresh_loc.
Qed.

Lemma frame_safe_bind {A B} (m : script A) (f : A → script B) :
  frame_safe m → (∀ a, frame_safe (f a)) → frame_safe (m ≫= f).
Proof.
  intros Hm Hf w b w' (a & w1 & H1 & H2)%bind_Ok.
  eapply extends_trans; [eapply Hm, H1 | eapply Hf, H2].
Qed.

Create HintDb frame_safe.
#[global] Hint Resolve frame_safe_ret frame_safe_pure frame_safe_frame
  frame_safe_new_frame : frame_safe.

Ltac frame_safe :=
  repeat first
    [ apply frame_safe_bind; [|intros ?]
    | solve [auto with frame_safe]
    | progress cbv zeta ].

Lemma frame_safe_candidates_obj (df : loc) (team : option string) :
  frame_safe (candidates_obj df team).
Proof. unfold candidates_obj. case_decide; frame_safe. Qed.

#[global] Hint Resolve frame_safe_candidates_obj : frame_safe.

Lemma frame_safe_lb_pool_obj (df : loc) (lb_team : option string) (m : string) :
  frame_safe (lb_pool_obj df lb_team m).
Proof. unfold lb_pool_obj. frame_safe. Qed.

#[global] Hint Resolve frame_safe_lb_pool_obj : frame_safe.

Lemma frame_safe_render (S : Sorter) (ui : inputs) (df : loc) :
  frame_safe (render S ui df).
Proof. unfold render. frame_safe. Qed.

Ltac inv_script :=
  repeat match goal with
  | H : (_ ≫= _) _ = Ok _ |- _ =>
      let a := fresh "a" in let w := fresh "w" in let H1 := fresh "H" in
      apply bind_Ok in H as (a & w & H1 & H)
  | H : pure _ _ = Ok _ |- _ => apply pure_Ok in H as [H ->]
  | H : frame _ _ = Ok _ |- _ => apply frame_Ok in H as [H ->]
  | H : new_frame _ _ = Ok _ |- _ => apply new_frame_Ok in H as [-> ->]
  end.

(** *** Loading *)

Lemma load_df_hit (csv_path : string) (w : world) (d : DataFrame) :
  cache w !! csv_path = Some d → load_df csv_path w = new_frame d w.
Proof.
  intros Hc. unfold load_df, mbind, script_bind, cache_get. by rewrite Hc.
Qed.

Lemma load_df_miss (csv_path : string) (w : world) :
  cache w !! csv_path = None →
  load_df csv_path w
  = match files w !! csv_path with
    | None => Raise (FileNotFoundError csv_path)
    | Some csv =>
        let d := mkDataFrame (csv_columns csv)
                   ((λ r, mkRow r (row_std (csv_columns csv) r)) <$> csv_rows csv) in
        new_frame d (mkWorld (files w) (<[csv_path := d]> (cache w)) (heap w))
    end.
Proof.
  intros Hc. unfold load_df, mbind, script_bind, cache_get, read_csv. rewrite Hc.
  destruct (files w !! csv_path) as [csv|]; [|reflexivity].
  rewrite load_df_body_Ok. reflexivity.
Qed.

(** What a successful [load_df] leaves behind. *)
Lemma load_df_Ok (csv_path : string) (w w1 : world) (l : loc) :
  load_df csv_path w = Ok (l, w1) →
  ∃ d, heap w1 !! l = Some d
       ∧ heap w !! l = None
       ∧ heap w1 = <[l := d]> (heap w)
       ∧ files w1 = files w
       ∧ cache w1 !! csv_path = Some d
       ∧ (cache w !! csv_path = Some d
          ∨ cache w !! csv_path = None
            ∧ ∃ csv, files w !! csv_path = Some csv ∧ load_df_body csv = Ok d).
Proof.
  intros Hl. destruct (cache w !! csv_path) as [d|] eqn:Hc.
  - rewrite (load_df_hit _ _ _ Hc) in Hl. apply new_frame_Ok in Hl as [-> ->].
    exists d. cbn. rewrite lookup_insert_eq.
    split; [done|]. split; [apply fresh_loc|]. repeat split; try done. by left.
  - rewrite (load_df_miss _ _ Hc) in Hl.
    destruct (files w !! csv_path) as [csv|] eqn:Hf; [|discriminate].
    cbv zeta in Hl. apply new_frame_Ok in Hl as [-> ->]. cbn.
    eexists. rewrite !lookup_insert_eq.
    split; [done|]. split; [apply fresh_loc|]. split; [done|]. split; [done|].
    split; [done|]. right. split; [done|]. exists csv. split; [done|].
    apply load_df_body_Ok.
Qed.

(** C9.  Loading the same season twice in a row, over the same files, gives
    two tables that are equal row for row, [disagreement_index] included: the
    second call is answered from the cache with the value of the first, the
    first table is left as it was, and a first call that was not answered from
    the cache returns what [load_df]'s body computes from the file. *)
Theorem load_season_twice (season : string) (w w1 : world) (l1 : loc) :
  load_season season w = Ok (l1, w1) →
  ∃ l2 w2 d,
    load_season season w1 = Ok (l2, w2)
    ∧ files w1 = files w ∧ files w2 = files w
    ∧ heap w1 !! l1 = Some d
    ∧ heap w2 !! l2 = Some d
    ∧ heap w2 !! l1 = Some d
    ∧ l2 ≠ l1
    ∧ ∀ csv_path, DATA_FILES !! season = Some csv_path →
        cache w !! csv_path = None →
        ∃ csv, files w !! csv_path = Some csv ∧ load_df_body csv = Ok d.
Proof.
  unfold load_season. intros Hl. inv_script.
  rename a into csv_path.
  destruct (load_df_Ok _ _ _ _ Hl) as (d & Hd & Hfresh & Hheap & Hfiles & Hc & Hsrc).
  pose proof (load_df_hit _ _ _ Hc) as Hhit.
  exists (fresh (dom (heap w1))),
         (mkWorld (files w1) (cache w1) (<[fresh (dom (heap w1)) := d]> (heap w1))), d.
  assert (Hne : fresh (dom (heap w1)) ≠ l1).
  { intros E. pose proof (fresh_loc w1) as Hf. rewrite E, Hd in Hf. discriminate. }
  split.
  { apply bind_Ok. exists csv_path, w1. split; [by apply pure_Ok|].
    rewrite Hhit. reflexivity. }
  assert (Hcold : ∀ p, DATA_FILES !! season = Some p → cache w !! p = None →
                       ∃ csv, files w !! p = Some csv ∧ load_df_body csv = Ok d).
  { intros p Hp Hmiss. unfold dict_get in H. rewrite Hp in H. injection H as <-.
    destruct Hsrc as [Hs|[_ Hs]]; [congruence | exact Hs]. }
  cbn [files heap]. rewrite lookup_insert_eq, lookup_insert_ne by done.
  repeat split; done.
Qed.

(** A season file with the full schema. *)
Definition full_columns : list string := ["Inn"; "Age"] ++ RAW_METRICS ++ PCT_METRICS.

Definition full_csv : CsvFrame :=
  mkCsvFrame full_columns
    [ mkCsvRow "Ada" "TeamX"
        [Some 900%Q; Some 27%Q;
         Some 5%Q; Some 3%Q; Some 2%Q; Some 1%Q; Some (49 # 50)%Q; Some 4%Q;
         Some 90%Q; Some 80%Q; Some 70%Q; Some 60%Q; Some 50%Q; Some 85%Q];
      mkCsvRow "Bo" "TeamX"
        [Some 450%Q; Some 31%Q;
         Some 5%Q; None; Some 1%Q; None; Some (97 # 100)%Q; Some 3%Q;
         Some 90%Q; None; Some 55%Q; None; Some 40%Q; Some 70%Q];
      mkCsvRow "Cy" "TeamY"
        [Some 120%Q; Some 24%Q;
         None; None; None; None; None; None;
         None; None; None; None; None; None] ].

Definition season_world : world :=
  mkWorld {["defensive_metrics_25.csv" := full_csv]} ∅ ∅.

Lemma load_season_twice_witness :
  ∃ l1 w1 l2 w2 d,
    load_season "2025" season_world = Ok (l1, w1)
    ∧ load_season "2025" w1 = Ok (l2, w2)
    ∧ heap w1 !! l1 = Some d ∧ heap w2 !! l2 = Some d.
Proof.
  assert (E : ∃ l1 w1, load_season "2025" season_world = Ok (l1, w1)).
  { eexists _, _. vm_compute. reflexivity. }
  destruct E as (l1 & w1 & E).
  destruct (load_season_twice "2025" season_world w1 l1 E)
    as (l2 & w2 & d & H2 & _ & _ & Hd1 & Hd2 & _).
  exists l1, w1, l2, w2, d. auto.
Defined.

(** *** The script body *)

Lemma candidates_subseteq (d : DataFrame) (team : option string) (r : Row) :
  r ∈ rows (candidates d team) → r ∈ rows d.
Proof.
  unfold candidates. case_decide; [done|]. cbn.
  intros Hr. by apply list_elem_of_filter in Hr as [_ ?].
Qed.

Lemma candidates_obj_Ok (df c : loc) (team : option string) (w w1 : world)
    (d : DataFrame) :
  candidates_obj df team w = Ok (c, w1) → heap w !! df = Some d →
  heap w1 !! c = Some (candidates d team).
Proof.
  unfold candidates_obj, candidates. intros Hc Hd. case_decide.
  - injection Hc as <- <-. done.
  - inv_script. cbn. rewrite lookup_insert_eq. congruence.
Qed.

Lemma lb_pool_obj_Ok (df pool : loc) (lb_team : option string) (m : string)
    (w w1 : world) (d : DataFrame) :
  lb_pool_obj df lb_team m w = Ok (pool, w1) → heap w !! df = Some d →
  ∃ p, heap w1 !! pool = Some p ∧ lb_pool d lb_team m = Ok p.
Proof.
  unfold lb_pool_obj. intros Hp Hd. inv_script.
  lazymatch goal with
  | Hc : candidates_obj _ _ _ = _, Hf : heap _ !! _ = Some ?c,
    Hi : col_pos (columns ?c) _ = _ |- _ =>
      pose proof (candidates_obj_Ok _ _ _ _ _ _ Hc Hd) as Hc';
      rewrite Hc' in Hf; injection Hf as <-;
      eexists; cbn; rewrite lookup_insert_eq; split; [reflexivity|];
      unfold lb_pool; rewrite Hi; reflexivity
  end.
Qed.

Lemma lb_pool_subseteq (d p : DataFrame) (lb_team : option string) (m : string)
    (r : Row) :
  lb_pool d lb_team m = Ok p → r ∈ rows p → r ∈ rows d.
Proof.
  unfold lb_pool. destruct (col_pos _ m) as [i|]; [|discriminate].
  cbn. intros [= <-]. cbn. intros Hr. apply list_elem_of_filter in Hr as [_ Hr].
  eapply candidates_subseteq, Hr.
Qed.

Lemma leader_rows (S : Sorter) (p : DataFrame) (m : string) (n : nat)
    (out : Leaderboard) (lr : LeaderRow) :
  leader S p m n = Ok out → lr ∈ l_rows out →
  ∃ r, r ∈ rows p
       ∧ l_Player lr = Player (base r) ∧ l_Team lr = Team (base r)
       ∧ getitem (columns p) (base r) m = Ok (l_metric lr)
       ∧ l_disagreement_index lr = disagreement_index r.
Proof.
  unfold leader. destruct (col_pos _ m) as [i|] eqn:Ei; [|discriminate]. cbn.
  destruct (dict_get LABEL m); [|discriminate]. cbn.
  intros [= <-]. cbn. intros Hlr%subseteq_take.
  apply list_elem_of_fmap in Hlr as (r & -> & Hr).
  rewrite sort_values_perm in Hr. exists r. split; [done|].
  unfold getitem. rewrite Ei. done.
Qed.

Lemma row_elem_of (cand : DataFrame) (player : option string) (r : Row) :
  row cand player = Ok r → r ∈ rows cand ∧ Some (Player (base r)) = player.
Proof.
  unfold row, iloc0, mask_player. cbn.
  destruct (filter _ (rows cand)) as [|r0 l] eqn:E; [discriminate|].
  intros [= ->].
  assert (Hr : r ∈ filter (λ r, Some (Player (base r)) = player) (rows cand))
    by (rewrite E; left).
  apply list_elem_of_filter in Hr. tauto.
Qed.

(** What a finished [render] computed, in terms of the table [d] it was
    given. *)
Lemma render_Ok (S : Sorter) (ui : inputs) (df : loc) (w w' : world) (pg : page)
    (d : DataFrame) :
  render S ui df w = Ok (pg, w') → heap w !! df = Some d →
  let team := selectbox (team_options d) (team_choice ui) in
  let cand := candidates d team in
  let player := selectbox (player_options cand) (player_choice ui) in
  row cand player = Ok (p_row pg)
  ∧ player_pct_cols d (p_row pg) = Ok (p_pct_cols pg)
  ∧ story_splitter d (p_row pg) (p_pct_cols pg) = Ok (p_story pg)
  ∧ ∃ m, selectbox PCT_METRICS (sort_metric_choice ui) = Some m
         ∧ leaderboard S d (selectbox (team_options d) (lb_team_choice ui)) m
             (top_n ui) = Ok (p_leader pg).
Proof.
  unfold render. intros Hr Hd. inv_script.
  rewrite Hd in H. injection H as <-.
  pose proof (candidates_obj_Ok _ _ _ _ _ _ H0 Hd) as Hc.
  rewrite Hc in H1. injection H1 as <-.
  injection Hr as <- <-. cbn [p_row p_pct_cols p_story p_leader].
  split; [exact H2|]. split; [exact H3|]. split; [exact H6|].
  exists a9. split.
  { destruct (selectbox PCT_METRICS _); [by injection H9 as -> | discriminate]. }
  assert (Hd1 : heap w1 !! df = Some d).
  { eapply extends_lookup; [eapply frame_safe_candidates_obj, H0 | done]. }
  destruct (lb_pool_obj_Ok _ _ _ _ _ _ _ H10 Hd1) as (p & Hp & Hlb).
  rewrite Hp in H11. injection H11 as <-.
  unfold leaderboard. rewrite Hlb. exact H12.
Qed.

(** C8.  In a run of the script, once [load_df] has returned the table,
    nothing that follows (team filter, player resolution, best/worst,
    leaderboard) changes it or any other frame object, the cache or the files:
    the table object holds the same rows and columns at the end as right after
    the load; the selected row is one of its rows; and every leaderboard row
    carries the player, team and [disagreement_index] of one of its rows, the
    value that was computed at load. *)
Theorem run_mutates_nothing (S : Sorter) (season : string) (ui : inputs)
    (w w' : world) (df : loc) (pg : page) :
  run S season ui w = Ok ((df, pg), w') →
  ∃ w1 d,
    load_season season w = Ok (df, w1)
    ∧ render S ui df w1 = Ok (pg, w')
    ∧ heap w1 !! df = Some d
    ∧ heap w' !! df = Some d
    ∧ (∀ l d', heap w1 !! l = Some d' → heap w' !! l = Some d')
    ∧ cache w' = cache w1
    ∧ files w' = files w1
    ∧ p_row pg ∈ rows d
    ∧ ∀ lr, lr ∈ l_rows (p_leader pg) →
        ∃ r, r ∈ rows d
             ∧ l_Player lr = Player (base r)
             ∧ l_Team lr = Team (base r)
             ∧ l_disagreement_index lr = disagreement_index r.
Proof.
  unfold run. intros Hrun. inv_script. injection Hrun as <- <- <-.
  rename H into Hload, H0 into Hrender, w0 into wl, a into l0, a0 into pg.
  assert (Hd : ∃ d, heap wl !! l0 = Some d).
  { unfold load_season in Hload. inv_script.
    destruct (load_df_Ok _ _ _ _ Hload) as (d & Hd & _). eauto. }
  destruct Hd as [d Hd].
  pose proof (frame_safe_render S ui l0 _ _ _ Hrender) as Hext.
  destruct (render_Ok _ _ _ _ _ _ _ Hrender Hd) as (Hrow & _ & _ & m & _ & Hlb).
  exists wl, d. split; [done|]. split; [done|]. split; [done|].
  split; [eapply extends_lookup; eauto|].
  split; [intros l d'; eapply extends_lookup; eauto|].
  destruct Hext as (Hf & Hc & _). split; [done|]. split; [done|]. split.
  - apply row_elem_of in Hrow as [Hr _]. eapply candidates_subseteq, Hr.
  - intros lr Hlr. unfold leaderboard in Hlb.
    destruct (lb_pool d _ m) as [p|] eqn:Hp; [|discriminate]. cbn in Hlb.
    destruct (leader_rows _ _ _ _ _ _ Hlb Hlr) as (r & Hr & HP & HT & _ & HD).
    exists r. split; [eapply lb_pool_subseteq; eauto|]. auto.
Qed.

Definition first_inputs : inputs := mkInputs 0 0 0 0 20.

Lemma run_mutates_nothing_witness :
  ∃ df pg w' d,
    run stable_sorter "2025" first_inputs season_world = Ok ((df, pg), w')
    ∧ heap w' !! df = Some d
    ∧ p_row pg ∈ rows d.
Proof.
  assert (E : ∃ df pg w',
             run stable_sorter "2025" first_inputs season_world = Ok ((df, pg), w')).
  { eexists _, _, _. vm_compute. reflexivity. }
  destruct E as (df & pg & w' & E).
  destruct (run_mutates_nothing stable_sorter "2025" first_inputs season_world
              w' df pg E)
    as (w1 & d & _ & _ & _ & Hd & _ & _ & _ & Hrow & _).
  exists df, pg, w', d. auto.
Defined.

(** ** The selected player *)



Lemma elem_of_sorted_unique (x : string) (l : list string) :
  x ∈ sorted (unique l) ↔ x ∈ l.
Proof.
  unfold sorted, unique. rewrite merge_sort_Permutation. apply elem_of_remove_dups.
Qed.



Lemma selectbox_singleton (x : string) (choice : nat) :
  selectbox [x] choice = Some x.
Proof. unfold selectbox. by destruct choice. Qed.

(** On a table without rows the player selectbox has no option and returns
    [None]; line 69 then takes [.iloc[0]] of an empty frame. *)
Lemma render_empty_table (S : Sorter) (ui : inputs) (df : loc) (w : world)
    (d : DataFrame) :
  heap w !! df = Some d → rows d = [] → render S ui df w = Raise IndexError.
Proof.
  intros Hd Hrows. unfold render, mbind, script_bind.
  unfold frame at 1. rewrite Hd.
  assert (Ht : team_options d = ["(All)"]) by (unfold team_options; by rewrite Hrows).
  rewrite Ht, selectbox_singleton.
  unfold candidates_obj. rewrite decide_True by done.
  unfold mret, script_ret, frame at 1. rewrite Hd.
  assert (Hp : player_options d = []) by (unfold player_options; by rewrite Hrows).
  rewrite Hp. cbn [selectbox].
  unfold row, iloc0, mask_player. cbn [rows]. rewrite Hrows. reflexivity.
Qed.

(** A season file that has the header and no line. *)
Definition header_only_world : world :=
  mkWorld {["defensive_metrics_25.csv" := mkCsvFrame full_columns []]} ∅ ∅.

(** C10, at an input where it fails.  With a season file that holds only the
    header, no player name is selectable, the selectbox returns [None], and
    the run reaches the not-found branch of line 69: it ends in IndexError,
    whatever the widgets hold. *)
Theorem run_header_only_not_found (S : Sorter) (ui : inputs) :
  player_options (mkDataFrame full_columns []) = []
  ∧ run S "2025" ui header_only_world = Raise IndexError.
Proof.
  split; [reflexivity|].
  unfold run, mbind, script_bind.
  assert (E : ∃ w1, load_season "2025" header_only_world = Ok (0, w1)
                    ∧ heap w1 !! 0 = Some (mkDataFrame full_columns [])).
  { eexists. split; vm_compute; reflexivity. }
  destruct E as (w1 & -> & Hd).
  rewrite (render_empty_table S ui 0 w1 _ Hd eq_refl). reflexivity.
Qed.

(** * Further properties of the script *)

(** ** The disagreement index as a number *)

(** The population variance of a non-empty list of reals. *)
Definition population_var (ys : list R) : R :=
  (Rsum ((λ y, (y - mean ys) ^ 2)%R <$> ys) / INR (length ys))%R.

Lemma nanvar_population_var (xs : list (option Q)) (v : Q) :
  nanvar 0 xs = Some v →
  dropna xs ≠ [] ∧ Q2R v = population_var (Q2R <$> dropna xs).
Proof.
  unfold nanvar. rewrite nancount_dropna.
  set (n := length (dropna xs)).
  destruct (decide (n ≤ 0)) as [Hle|Hgt]; [discriminate|].
  intros [= <-]. assert (Hn : n ≠ 0) by lia. split.
  - intros E. apply Hn. unfold n. by rewrite E.
  - replace (n - 0) with n by lia.
    rewrite (Q2R_div _ _ (Qnat_nonzero _ Hn)), Q2R_nansum_sqdev.
    rewrite (Q2R_div _ _ (Qnat_nonzero _ Hn)), Q2R_nansum, !Q2R_Qnat.
    unfold population_var, mean. rewrite length_fmap. fold n. reflexivity.
Qed.

Lemma nanvar_is_Some (xs : list (option Q)) :
  dropna xs ≠ [] → is_Some (nanvar 0 xs).
Proof.
  intros Hne. unfold nanvar. rewrite nancount_dropna.
  destruct (decide _) as [Hle|]; [|eauto].
  destruct (dropna xs); [done | cbn in Hle; lia].
Qed.

Lemma Rsum_cons (y : R) (ys : list R) : Rsum (y :: ys) = (y + Rsum ys)%R.
Proof. reflexivity. Qed.



Lemma INR_length_pos {A} (ys : list A) : ys ≠ [] → (0 < INR (length ys))%R.
Proof. destruct ys; [done|]. intros _. apply lt_0_INR. cbn. lia. Qed.



Lemma Rsum_sq_shift (mu c : R) (ys : list R) :
  Rsum ((λ y, (y - mu) ^ 2)%R <$> ys)
  = (Rsum ((λ y, (y - c) ^ 2)%R <$> ys)
     - 2 * (mu - c) * (Rsum ys - INR (length ys) * c)
     + INR (length ys) * (mu - c) ^ 2)%R.
Proof.
  induction ys as [|y ys IH]; [cbn; ring|].
  rewrite !fmap_cons, !Rsum_cons, IH. cbn [length]. rewrite S_INR. ring.
Qed.

Lemma Rsum_mean (ys : list R) :
  ys ≠ [] → Rsum ys = (INR (length ys) * mean ys)%R.
Proof.
  intros Hne. pose proof (INR_length_pos ys Hne). unfold mean. field. lra.
Qed.


(** The mean is the centre with the least sum of squares. *)
Lemma population_var_le_centre (c : R) (ys : list R) :
  ys ≠ [] →
  (population_var ys <= Rsum ((λ y, (y - c) ^ 2)%R <$> ys) / INR (length ys))%R.
Proof.
  intros Hne. pose proof (INR_length_pos ys Hne) as Hn. unfold population_var.
  apply Rmult_le_compat_r; [apply Rlt_le, Rinv_0_lt_compat, Hn|].
  rewrite (Rsum_sq_shift (mean ys) c), (Rsum_mean ys Hne).
  pose proof (pow2_ge_0 (mean ys - c)) as Hsq.
  assert (0 <= INR (length ys) * (mean ys - c) ^ 2)%R by (apply Rmult_le_pos; lra).
  replace (Rsum ((λ y, (y - c) ^ 2)%R <$> ys)
           - 2 * (mean ys - c) * (INR (length ys) * mean ys - INR (length ys) * c)
           + INR (length ys) * (mean ys - c) ^ 2)%R
    with (Rsum ((λ y, (y - c) ^ 2)%R <$> ys)
          - INR (length ys) * (mean ys - c) ^ 2)%R by ring.
  lra.
Qed.

Lemma Rsum_sq_bound (ys : list R) :
  (∀ y, y ∈ ys → 0 <= y <= 100)%R →
  (Rsum ((λ y, (y - 50) ^ 2)%R <$> ys) <= INR (length ys) * 2500)%R.
Proof.
  induction ys as [|y ys IH]; intros Hb; [cbn; lra|].
  rewrite fmap_cons, Rsum_cons. cbn [length]. rewrite S_INR.
  assert (Hy : (0 <= y <= 100)%R) by (apply Hb; left).
  assert ((y - 50) ^ 2 <= 2500)%R by nra.
  assert (Rsum ((λ y, (y - 50) ^ 2)%R <$> ys) <= INR (length ys) * 2500)%R
    by (apply IH; intros z Hz; apply Hb; by right).
  lra.
Qed.

Lemma population_var_bound (ys : list R) :
  ys ≠ [] → (∀ y, y ∈ ys → 0 <= y <= 100)%R → (population_var ys <= 2500)%R.
Proof.
  intros Hne Hb. pose proof (INR_length_pos ys Hne) as Hn.
  eapply Rle_trans; [apply (population_var_le_centre 50 ys Hne)|].
  apply (Rmult_le_reg_r (INR (length ys))); [exact Hn|].
  replace (Rsum ((λ y, (y - 50) ^ 2)%R <$> ys) / INR (length ys)
           * INR (length ys))%R
    with (Rsum ((λ y, (y - 50) ^ 2)%R <$> ys)) by (field; lra).
  pose proof (Rsum_sq_bound ys Hb). lra.
Qed.

Lemma row_std_cases (cols : list string) (r : CsvRow) :
  match row_std cols r with
  | None => pct_values cols r = []
  | Some s =>
      pct_values cols r ≠ []
      ∧ Q2R (radicand s) = population_var (Q2R <$> pct_values cols r)
  end.
Proof.
  unfold row_std, nanstd, existing_pct.
  pose proof (present_values cols r PCT_METRICS) as Hv. fold (pct_values cols r) in Hv.
  set (xs := value_of cols r <$> filter (λ c, c ∈ cols) PCT_METRICS) in *.
  destruct (nanvar 0 xs) as [v|] eqn:E; cbn.
  - apply nanvar_population_var in E as [Hne Hq]. rewrite Hv in Hne, Hq. done.
  - destruct (pct_values cols r) as [|x l] eqn:Ep; [done|].
    destruct (nanvar_is_Some xs) as [v Hv']; [rewrite Hv; done|]. congruence.
Qed.

Lemma Q2R_fmap_elem_of (x : R) (l : list Q) :
  x ∈ Q2R <$> l ↔ ∃ q, x = Q2R q ∧ q ∈ l.
Proof. apply list_elem_of_fmap. Qed.


(** X2.  With percentile values between 0 and 100 the index is at most 50. *)
Theorem disagreement_at_most_50 (cols : list string) (r : CsvRow) (s : sqrtQ) :
  row_std cols r = Some s →
  (∀ x, x ∈ pct_values cols r → 0 <= x ∧ x <= 100)%Q →
  (radicand s <= 2500)%Q ∧ (0 <= sqrt_val s <= 50)%R.
Proof.
  intros Hs Hb. pose proof (row_std_cases cols r) as H. rewrite Hs in H.
  destruct H as [Hne Hq].
  assert (Hne' : Q2R <$> pct_values cols r ≠ []) by (intros E%fmap_nil_inv; done).
  assert (Hv : (Q2R (radicand s) <= 2500)%R).
  { rewrite Hq. apply population_var_bound; [exact Hne'|].
    intros y (q & -> & Hy)%list_elem_of_fmap. destruct (Hb q Hy) as [H0 H100].
    apply Qle_Rle in H0, H100. rewrite RMicromega.Q2R_0 in H0.
    replace (Q2R 100) with 100%R in H100 by (unfold Q2R; cbn; lra). lra. }
  split.
  - apply Rle_Qle. replace (Q2R 2500) with 2500%R by (unfold Q2R; cbn; lra).
    exact Hv.
  - unfold sqrt_val. split; [apply sqrt_pos|].
    replace 50%R with (sqrt 2500).
    + apply sqrt_le_1_alt, Hv.
    + replace 2500%R with (50 * 50)%R by lra. apply sqrt_square. lra.
Qed.

Definition ada_csv : CsvRow :=
  mkCsvRow "Ada" "TeamX"
    [Some 900%Q; Some 27%Q;
     Some 5%Q; Some 3%Q; Some 2%Q; Some 1%Q; Some (49 # 50)%Q; Some 4%Q;
     Some 90%Q; Some 80%Q; Some 70%Q; Some 60%Q; Some 50%Q; Some 85%Q].

Lemma disagreement_at_most_50_witness :
  ∃ s, row_std full_columns ada_csv = Some s ∧ (radicand s <= 2500)%Q.
Proof.
  exists (Sqrt (2584929024000 # 13060694016)).
  split; [vm_compute; reflexivity|].
  apply (disagreement_at_most_50 full_columns ada_csv
           (Sqrt (2584929024000 # 13060694016))).
  - vm_compute. reflexivity.
  - intros x Hx.
    change (x ∈ [90; 80; 70; 60; 50; 85]%Q) in Hx.
    repeat (apply elem_of_cons in Hx as [->|Hx]; [split; discriminate|]).
    inversion Hx.
Defined.

(** X3.  The index of a row looks at nothing but the row's percentile values,
    metric by metric: a percentile column that the file lacks counts like an
    empty cell, and neither the order of the columns nor any other column
    matters. *)
Theorem disagreement_reads_percentiles_only
    (cols cols' : list string) (r r' : CsvRow) :
  (∀ m, m ∈ PCT_METRICS → value_of cols r m = value_of cols' r' m) →
  sqrt_val <$> row_std cols r = sqrt_val <$> row_std cols' r'.
Proof.
  intros Hv. rewrite !row_std_population_std. f_equal. f_equal.
  unfold pct_values. induction PCT_METRICS as [|m ms IH]; [reflexivity|].
  cbn [omap list_omap]. rewrite (Hv m) by left.
  rewrite IH by (intros m' Hm'; apply Hv; by right). reflexivity.
Qed.

Lemma disagreement_reads_percentiles_only_witness :
  sqrt_val <$> row_std [oaa_pct; "Rdrs_percentile"]
                 (mkCsvRow "A" "TeamX" [Some 90%Q; None])
  = sqrt_val <$> row_std ["Inn"; oaa_pct]
                   (mkCsvRow "B" "TeamY" [Some 5%Q; Some 90%Q]).
Proof.
  apply (disagreement_reads_percentiles_only
           [oaa_pct; "Rdrs_percentile"] ["Inn"; oaa_pct]).
  intros m Hm. unfold PCT_METRICS in Hm.
  repeat (apply elem_of_cons in Hm as [->|Hm]; [vm_compute; reflexivity|]).
  inversion Hm.
Defined.

(** ** The story splitter, the chart and the table *)

Lemma filter_has_data_PCT (cols : list string) (r : Row) (m : string) :
  m ∈ filter (has_data cols r) PCT_METRICS → m ∈ PCT_METRICS ∧ has_data cols r m.
Proof. intros Hm. apply list_elem_of_filter in Hm. tauto. Qed.

(** X4.  For the list the script passes (the available metrics of the row), the
    story splitter never raises: without data it shows the notice, otherwise
    the labels and values of two available metrics, the worst value not above
    the best; and the two metrics are the same one exactly when all available
    values are equal. *)
Theorem story_splitter_total (df : DataFrame) (r : Row) :
  ∃ l st,
    player_pct_cols df r = Ok l
    ∧ story_splitter df r l = Ok st
    ∧ match st with
      | Info msg =>
          l = [] ∧ msg = "No percentile data available for this player."
      | BestWorst bl bv wl wv =>
          ∃ b w,
            best df r l = Ok b ∧ worst df r l = Ok w
            ∧ b ∈ l ∧ w ∈ l
            ∧ dict_get LABEL b = Ok bl ∧ dict_get LABEL w = Ok wl
            ∧ bv = Some (pct df r b) ∧ wv = Some (pct df r w)
            ∧ (pct df r w <= pct df r b)%Q
            ∧ (b = w ↔
               ∀ m m', m ∈ l → m' ∈ l → (pct df r m == pct df r m')%Q)
      end.
Proof.
  exists (filter (has_data (columns df) r) PCT_METRICS).
  set (l := filter (has_data (columns df) r) PCT_METRICS).
  assert (Hd : ∀ m, m ∈ l → has_data (columns df) r m).
  { intros m Hm. by apply filter_has_data_PCT in Hm as [_ ?]. }
  destruct (decide (l = [])) as [E|Hne].
  - exists (Info "No percentile data available for this player.").
    split; [apply pct_cols_of_Ok|]. rewrite E. done.
  - destruct (py_max_first_best df r l Hd Hne) as (b & Hb & Fb).
    destruct (py_min_first_best df r l Hd Hne) as (w & Hw & Fw).
    pose proof (first_best_elem_of _ _ _ _ Fb) as Hbl.
    pose proof (first_best_elem_of _ _ _ _ Fw) as Hwl.
    destruct (PCT_METRICS_LABEL b) as [bl Hbl'];
      [by apply filter_has_data_PCT in Hbl as [? _]|].
    destruct (PCT_METRICS_LABEL w) as [wl Hwl'];
      [by apply filter_has_data_PCT in Hwl as [? _]|].
    exists (BestWorst bl (Some (pct df r b)) wl (Some (pct df r w))).
    split; [apply pct_cols_of_Ok|]. split.
    + unfold story_splitter. destruct l as [|x l'] eqn:El; [done|].
      rewrite <- El in *. rewrite Hb, Hw. cbn. rewrite Hbl'. cbn.
      rewrite (has_data_key df r b (Hd b Hbl)), Hwl'. cbn.
      rewrite (has_data_key df r w (Hd w Hwl)). reflexivity.
    + exists b, w. repeat (split; [done|]).
      assert (Hle : ∀ m, m ∈ l →
                (pct df r m <= pct df r b)%Q ∧ (pct df r w <= pct df r m)%Q).
      { intros m Hm. split; apply Qnot_lt_le.
        - exact (first_best_bound _ _ (λ p q, Qlt_asym p q) l b m Fb Hm).
        - exact (first_best_bound _ (λ p q, (q < p)%Q)
                   (λ p q, Qlt_asym q p) l w m Fw Hm). }
      split; [apply (Hle b Hbl)|]. split.
      * intros <- m m' Hm Hm'.
        destruct (Hle m Hm), (Hle m' Hm').
        transitivity (pct df r b); [|symmetry]; apply Qle_antisym; done.
      * intros Heq.
        assert (Some b = Some w) as [= ->]; [|done].
        rewrite <- (first_best_flat _ _ l b Fb), <- (first_best_flat _ _ l w Fw);
          [done|..]; intros x y Hx Hy Hlt;
          apply (Qlt_not_eq _ _ Hlt), Heq; done.
Qed.

(** Lines 102-122: the data of the bar chart, or no chart. *)
Record chart := mkChart {
  ch_Metric : list string;
  ch_Percentile : list (option Q)
}.

Definition chart_df (df : DataFrame) (r : Row) (pct_cols : list string)
  : result (option chart) :=
  match pct_cols with
  | [] => Ok None
  | _ =>
      metric ← mapM (dict_get LABEL) pct_cols;
      percentile ← mapM (getitem (columns df) (base r)) pct_cols;
      Ok (Some (mkChart metric percentile))
  end.

(** Lines 128-132: the three columns of the "Raw vs Percentiles" table. *)
Record raw_pct_table := mkTable {
  t_Metric : list string;
  t_Raw : list (option Q);
  t_Percentile : list (option Q)
}.

Definition table (df : DataFrame) (r : Row) : result raw_pct_table :=
  metric ← mapM (dict_get LABEL) RAW_METRICS;
  raw ← mapM (getitem (columns df) (base r)) RAW_METRICS;
  percentile ← mapM (getitem (columns df) (base r)) PCT_METRICS;
  Ok (mkTable metric raw percentile).

Lemma mapM_getitem_Ok (cols : list string) (r : CsvRow) (l : list string) :
  (∀ c, c ∈ l → c ∈ cols) →
  mapM (getitem cols r) l = Ok (value_of cols r <$> l).
Proof.
  intros Hl. apply mapM_Ok_fmap. intros c Hc. apply getitem_Ok, Hl, Hc.
Qed.

(** [mapM] fails with the error of the first element that fails. *)
Lemma mapM_Raise_first {A B} (f : A → result B) (l1 l2 : list A) (x : A)
    (ys : list B) (e : exn) :
  mapM f l1 = Ok ys → f x = Raise e → mapM f (l1 ++ x :: l2) = Raise e.
Proof.
  revert ys. induction l1 as [|a l1 IH]; intros ys H1 Hx; cbn.
  - rewrite Hx. reflexivity.
  - cbn in H1. destruct (f a) as [b|]; [|discriminate]. cbn in *.
    destruct (mapM f l1) as [ys'|] eqn:E; [|discriminate].
    rewrite (IH ys' eq_refl Hx). reflexivity.
Qed.

Lemma mapM_getitem_inv (cols : list string) (r : CsvRow) (l : list string)
    (ys : list (option Q)) :
  mapM (getitem cols r) l = Ok ys → ∀ c, c ∈ l → c ∈ cols.
Proof.
  revert ys. induction l as [|a l IH]; intros ys H c Hc; [inversion Hc|].
  cbn in H. destruct (decide (a ∈ cols)) as [Ha|Ha].
  - rewrite (getitem_Ok _ _ _ Ha) in H. cbn in H.
    destruct (mapM (getitem cols r) l) as [ys'|] eqn:E; [|discriminate].
    apply elem_of_cons in Hc as [->|Hc]; [done|]. exact (IH ys' eq_refl c Hc).
  - rewrite (getitem_Raise _ _ _ Ha) in H. discriminate.
Qed.

Lemma NoDup_fmap_inj_on {A B} (f : A → B) (l : list A) (x y : A) :
  NoDup (f <$> l) → x ∈ l → y ∈ l → f x = f y → x = y.
Proof.
  induction l as [|a l IH]; intros Hnd Hx Hy E; [inversion Hx|].
  rewrite fmap_cons in Hnd. apply NoDup_cons in Hnd as [Hnot Hnd].
  apply elem_of_cons in Hx as [->|Hx], Hy as [->|Hy]; [done| | |by apply IH].
  - exfalso. apply Hnot. rewrite E. apply list_elem_of_fmap. eauto.
  - exfalso. apply Hnot. rewrite <- E. apply list_elem_of_fmap. eauto.
Qed.

Lemma LABEL_pct_injective (m m' : string) :
  m ∈ PCT_METRICS → m' ∈ PCT_METRICS → LABEL !! m = LABEL !! m' → m = m'.
Proof.
  apply (NoDup_fmap_inj_on (λ m, LABEL !! m) PCT_METRICS).
  apply (bool_decide_unpack _). vm_compute. exact I.
Qed.

Lemma result_bind_Ok {A B} (a : A) (f : A → result B) : (Ok a ≫= f) = f a.
Proof. reflexivity. Qed.

Lemma result_bind_Raise {A B} (e : exn) (f : A → result B) :
  (Raise e ≫= f) = Raise e.
Proof. reflexivity. Qed.

Lemma mapM_LABEL_pct (l : list string) :
  (∀ m, m ∈ l → m ∈ PCT_METRICS) →
  ∃ labels, mapM (dict_get LABEL) l = Ok labels
            ∧ Forall2 (λ m lbl, LABEL !! m = Some lbl) l labels.
Proof.
  induction l as [|m l IH]; intros Hl; [exists []; split; [done|constructor]|].
  destruct IH as (labels & E & HF); [intros m' Hm'; apply Hl; by right|].
  destruct (PCT_METRICS_LABEL m) as [lbl Hlbl]; [apply Hl; left|].
  exists (lbl :: labels). cbn. rewrite Hlbl. cbn. rewrite E. split; [done|].
  constructor; [|done]. unfold dict_get in Hlbl.
  destruct (LABEL !! m); [congruence | discriminate].
Qed.

(** X5.  For the available metrics of a row, the chart data never raises: no
    chart when there is none; otherwise one bar per available metric, in the
    order of [PCT_METRICS], labelled by [LABEL] with no label used twice, and
    every bar has a value. *)
Theorem chart_df_bars (df : DataFrame) (r : Row) :
  ∃ l ch,
    player_pct_cols df r = Ok l
    ∧ chart_df df r l = Ok ch
    ∧ match ch with
      | None => l = []
      | Some c =>
          l ≠ []
          ∧ Forall2 (λ m lbl, LABEL !! m = Some lbl) l (ch_Metric c)
          ∧ ch_Percentile c = (λ m, Some (pct df r m)) <$> l
          ∧ NoDup (ch_Metric c)
          ∧ length (ch_Metric c) = length (ch_Percentile c)
      end.
Proof.
  exists (filter (has_data (columns df) r) PCT_METRICS).
  set (l := filter (has_data (columns df) r) PCT_METRICS).
  assert (Hd : ∀ m, m ∈ l → m ∈ PCT_METRICS ∧ has_data (columns df) r m)
    by (intros m; apply filter_has_data_PCT).
  assert (Hnd : NoDup l) by (apply NoDup_filter, PCT_METRICS_NoDup).
  destruct (mapM_LABEL_pct l) as (labels & El & HF); [intros m Hm; by apply Hd|].
  assert (Ep : mapM (getitem (columns df) (base r)) l
               = Ok ((λ m, Some (pct df r m)) <$> l)).
  { apply mapM_Ok_fmap. intros m Hm. apply has_data_key. by apply Hd. }
  assert (Hl : player_pct_cols df r = Ok l) by apply pct_cols_of_Ok.
  clearbody l. destruct (decide (l = [])) as [->|Hne].
  - exists None. done.
  - exists (Some (mkChart labels ((λ m, Some (pct df r m)) <$> l))).
    split; [done|]. split.
    { unfold chart_df. rewrite El, result_bind_Ok, Ep. by destruct l. }
    cbn [ch_Metric ch_Percentile].
    split; [done|]. split; [done|]. split; [done|]. split.
    + clear El Ep Hl Hne. revert Hd Hnd. induction HF as [|m lbl l0 lbls Hm HF IH];
        intros Hd Hnd; [constructor|].
      apply NoDup_cons in Hnd as [Hnot Hnd]. constructor.
      * intros Hin. apply Hnot.
        destruct (proj1 (list_elem_of_lookup lbls lbl) Hin) as [i Hi].
        destruct (Forall2_lookup_r _ _ _ _ _ HF Hi) as (m' & Hm' & Hl').
        assert (m = m') as ->; [|eapply list_elem_of_lookup_2, Hm'].
        apply LABEL_pct_injective; [apply Hd; left| |congruence].
        apply Hd. right. eapply list_elem_of_lookup_2, Hm'.
      * apply IH; [|done]. intros m' Hm'. apply Hd. by right.
    + rewrite length_fmap. symmetry. eapply Forall2_length, HF.
Qed.

Lemma mapM_app_result {A B} (f : A → result B) (l1 l2 : list A) :
  mapM f (l1 ++ l2)
  = (ys1 ← mapM f l1; ys2 ← mapM f l2; Ok (ys1 ++ ys2)).
Proof.
  induction l1 as [|a l1 IH]; cbn.
  - destruct (mapM f l2); reflexivity.
  - destruct (f a) as [b|]; [|reflexivity]. cbn. rewrite IH.
    destruct (mapM f l1) as [ys1|]; [|reflexivity]. cbn.
    destruct (mapM f l2); reflexivity.
Qed.

Definition RAW_LABELS : list string :=
  ["OAA"; "DRS"; "Total Zone"; "DRP"; "Fielding %"; "FRV"].

Lemma table_unfold (df : DataFrame) (r : Row) :
  table df r
  = (raw ← mapM (getitem (columns df) (base r)) RAW_METRICS;
     percentile ← mapM (getitem (columns df) (base r)) PCT_METRICS;
     Ok (mkTable RAW_LABELS raw percentile)).
Proof. reflexivity. Qed.

(** X6.  The "Raw vs Percentiles" table is built if and only if the frame has all
    twelve metric columns; otherwise the script stops with the KeyError of the
    first missing one, raw metrics before percentiles.  When built, it has the
    six rows of [RAW_METRICS] in order, and a row holds the label of its
    metric, the row's raw value and the percentile of the same metric (the
    column named after the raw one with "_percentile"), null cells included. *)
Theorem table_rows (df : DataFrame) (r : Row) :
  PCT_METRICS = (λ m, m +:+ "_percentile") <$> RAW_METRICS
  ∧ ((∀ c, c ∈ RAW_METRICS ++ PCT_METRICS → c ∈ columns df) →
     table df r
     = Ok (mkTable RAW_LABELS
             (value_of (columns df) (base r) <$> RAW_METRICS)
             ((λ m, value_of (columns df) (base r) (m +:+ "_percentile"))
                <$> RAW_METRICS))
     ∧ Forall2 (λ m lbl, LABEL !! m = Some lbl) RAW_METRICS RAW_LABELS)
  ∧ (∀ t, table df r = Ok t →
          ∀ c, c ∈ RAW_METRICS ++ PCT_METRICS → c ∈ columns df)
  ∧ (∀ l1 c l2, RAW_METRICS ++ PCT_METRICS = l1 ++ c :: l2 →
       (∀ x, x ∈ l1 → x ∈ columns df) → c ∉ columns df →
       table df r = Raise (KeyError c)).
Proof.
  assert (Hmeta : ∀ e, mapM (getitem (columns df) (base r))
                         (RAW_METRICS ++ PCT_METRICS) = Raise e →
                       table df r = Raise e).
  { intros e. rewrite mapM_app_result, table_unfold.
    destruct (mapM _ RAW_METRICS) as [raw|];
      [|rewrite !result_bind_Raise; by intros [= ->]].
    rewrite !result_bind_Ok.
    destruct (mapM _ PCT_METRICS) as [p|];
      [discriminate | rewrite !result_bind_Raise; by intros [= ->]]. }
  split; [reflexivity|]. split; [|split].
  - intros Hc. split.
    + rewrite table_unfold.
      rewrite (mapM_getitem_Ok _ _ RAW_METRICS)
        by (intros c Hin; apply Hc, elem_of_app; by left).
      rewrite result_bind_Ok.
      rewrite (mapM_getitem_Ok _ _ PCT_METRICS)
        by (intros c Hin; apply Hc, elem_of_app; by right).
      reflexivity.
    + repeat constructor.
  - intros t Ht c [Hc|Hc]%elem_of_app; rewrite table_unfold in Ht.
    + destruct (mapM _ RAW_METRICS) as [raw|] eqn:E; [|discriminate].
      eapply mapM_getitem_inv; eauto.
    + destruct (mapM _ RAW_METRICS) as [raw|]; [|discriminate].
      rewrite result_bind_Ok in Ht.
      destruct (mapM _ PCT_METRICS) as [p|] eqn:E; [|discriminate].
      eapply mapM_getitem_inv; eauto.
  - intros l1 c l2 E Hl1 Hc. apply Hmeta. rewrite E.
    eapply mapM_Raise_first; [apply (mapM_getitem_Ok _ _ l1 Hl1)|].
    apply getitem_Raise, Hc.
Qed.

(** ** The sidebar and the selected row *)

Lemma filter_team_player (df : DataFrame) (z name : string) :
  z ≠ "(All)" →
  filter (λ r, Some (Player (base r)) = Some name) (rows (candidates df (Some z)))
  = filter (λ r, Team (base r) = z ∧ Player (base r) = name) (rows df).
Proof.
  intros Hz. rewrite (candidates_rows df z Hz). cbn [rows].
  rewrite list_filter_filter. apply list_filter_iff.
  intros r. split; [intros [[= ?] ?] | intros [? ->]]; done.
Qed.

(** X7.  With a team chosen, [row] returns the first row of the whole table that
    has both the chosen team and the chosen name: a player who appears for
    two teams is shown with the line of the team that was picked, and no row
    of another team is ever returned. *)
Theorem row_in_team_first_match (df : DataFrame) (z name : string) (r : Row) :
  z ≠ "(All)" →
  row (candidates df (Some z)) (Some name) = Ok r ↔
  ∃ l1 l2, rows df = l1 ++ r :: l2
           ∧ Team (base r) = z ∧ Player (base r) = name
           ∧ ∀ x, x ∈ l1 → ¬ (Team (base x) = z ∧ Player (base x) = name).
Proof.
  intros Hz. rewrite row_head, (filter_team_player df z name Hz).
  pose proof (filter_head (λ r, Team (base r) = z ∧ Player (base r) = name)
                (rows df) r) as Hh.
  destruct (head _) as [r0|].
  - split.
    + intros [= ->]. destruct (proj1 Hh eq_refl) as (l1 & l2 & E & [? ?] & Hl1).
      exists l1, l2. auto.
    + intros (l1 & l2 & E & HT & HP & Hl1). f_equal.
      assert (Some r0 = Some r) as [= ->]; [|done].
      apply Hh. exists l1, l2. auto.
  - split; [discriminate|].
    intros (l1 & l2 & E & HT & HP & Hl1).
    assert (None = Some r); [|discriminate].
    apply Hh. exists l1, l2. auto.
Qed.

(** A player who changed teams during the season. *)
Definition traded_df : DataFrame :=
  mkDataFrame [oaa_pct]
    [ mkRow (mkCsvRow "Dee" "TeamX" [Some 30%Q]) (Some (Sqrt 0));
      mkRow (mkCsvRow "Dee" "TeamY" [Some 80%Q]) (Some (Sqrt 0)) ].

Lemma row_in_team_first_match_witness :
  row (candidates traded_df (Some "TeamY")) (Some "Dee")
  = Ok (mkRow (mkCsvRow "Dee" "TeamY" [Some 80%Q]) (Some (Sqrt 0))).
Proof.
  apply (row_in_team_first_match traded_df "TeamY" "Dee"); [discriminate|].
  exists [mkRow (mkCsvRow "Dee" "TeamX" [Some 30%Q]) (Some (Sqrt 0))], [].
  split; [reflexivity|]. split; [reflexivity|]. split; [reflexivity|].
  intros x Hx. apply list_elem_of_singleton in Hx as ->. cbn. intros [? _].
  discriminate.
Defined.



(** ** The leaderboard with its own team filter *)

Lemma leaderboard_unfold (S : Sorter) (df : DataFrame) (lb_team : option string)
    (m : string) (n : nat) :
  leaderboard S df lb_team m n
  = (i ← col_pos (columns df) m;
     label ← dict_get LABEL m;
     Ok (mkLeaderboard ["Player"; "Team"; label; "disagreement_index"]
           (take n (leader_row i <$>
                      sort_values_desc S (λ r, cell_at (base r) i)
                        (with_metric i (candidates df lb_team)))))).
Proof.
  assert (Hcols : columns (candidates df lb_team) = columns df).
  { unfold candidates. by case_decide. }
  unfold leaderboard, lb_pool, leader. rewrite Hcols.
  destruct (col_pos (columns df) m) as [i|e] eqn:E; [|reflexivity].
  rewrite !result_bind_Ok. cbn [columns rows]. rewrite E. reflexivity.
Qed.

(** X9.  With a team picked in the leaderboard's own filter, the leaderboard lists
    rows of that team only, each with a value for the metric, at most [n],
    greater values first; they are the first [n] of a rearrangement of the
    team's rows that have the metric; every listed player is an option of the
    player box for the same team; and the header reads Player, Team, the
    label of the metric, disagreement_index. *)
Theorem leaderboard_of_team (S : Sorter) (df : DataFrame) (z m : string) (n : nat) :
  (m ∈ PCT_METRICS → m ∈ columns df →
   ∃ out, leaderboard S df (Some z) m n = Ok out)
  ∧ (m ∉ columns df → leaderboard S df (Some z) m n = Raise (KeyError m))
  ∧ (∀ out, leaderboard S df (Some z) m n = Ok out →
       length (l_rows out) ≤ n
       ∧ (∃ label, LABEL !! m = Some label
                   ∧ l_columns out = ["Player"; "Team"; label; "disagreement_index"])
       ∧ (∀ lr, lr ∈ l_rows out →
            (z ≠ "(All)" → l_Team lr = z)
            ∧ (∃ q, l_metric lr = Some q)
            ∧ l_Player lr ∈ player_options (candidates df (Some z)))
       ∧ (∀ i j a b, i < j →
            l_rows out !! i = Some a → l_rows out !! j = Some b →
            desc (l_metric a) (l_metric b))
       ∧ ∃ k rs,
           col_pos (columns df) m = Ok k
           ∧ rs ≡ₚ filter (λ r, is_Some (cell_at (base r) k))
                     (rows (candidates df (Some z)))
           ∧ l_rows out = leader_row k <$> take n rs).
Proof.
  rewrite leaderboard_unfold. split; [|split].
  - intros Hm (k & ->)%col_pos_Ok. destruct (PCT_METRICS_LABEL m Hm) as [lbl ->].
    cbn. eauto.
  - intros Hm. by rewrite col_pos_Raise.
  - intros out Hout.
    destruct (col_pos (columns df) m) as [k|] eqn:Ek; [|discriminate].
    rewrite result_bind_Ok in Hout. unfold dict_get in Hout.
    destruct (LABEL !! m) as [lbl|] eqn:El; [|discriminate].
    rewrite result_bind_Ok in Hout. injection Hout as <-. cbn [l_rows l_columns].
    set (key := λ r : Row, cell_at (base r) k).
    set (cand := candidates df (Some z)).
    set (rs := sort_values_desc S key (with_metric k cand)).
    assert (Hperm : rs ≡ₚ with_metric k cand) by apply sort_values_perm.
    assert (Hsorted : StronglySorted (λ a b, desc (key a) (key b)) rs)
      by apply sort_values_sorted.
    assert (Hrs : ∀ r, r ∈ rs → r ∈ rows cand ∧ ∃ q, key r = Some q).
    { intros r Hr. rewrite Hperm in Hr. unfold with_metric in Hr.
      apply list_elem_of_filter in Hr as [Hn Hr]. split; [done|]. unfold key.
      destruct (cell_at (base r) k); [eauto | discriminate]. }
    split; [rewrite length_take; lia|]. split; [eauto|]. split; [|split].
    + intros lr Hlr. rewrite <- fmap_take in Hlr.
      apply list_elem_of_fmap in Hlr as (r & -> & Hr%subseteq_take).
      destruct (Hrs r Hr) as [Hc Hq]. cbn [l_Team l_metric l_Player leader_row].
      split; [|split; [exact Hq|]].
      * intros Hz. unfold cand in Hc. rewrite (candidates_rows df z Hz) in Hc.
        cbn in Hc. by apply list_elem_of_filter in Hc as [? _].
      * apply elem_of_sorted_unique, list_elem_of_fmap. eauto.
    + intros i j a b Hij Ha Hb.
      apply (StronglySorted_lookup (λ x y, desc (l_metric x) (l_metric y))
               (take n (leader_row k <$> rs)) i j a b); [|done..].
      apply StronglySorted_take.
      eapply StronglySorted_fmap, Hsorted. intros x y Hxy. exact Hxy.
    + exists k, rs. split; [done|]. split; [|by rewrite fmap_take].
      rewrite Hperm. unfold with_metric.
      rewrite (list_filter_iff _ (λ r, is_Some (cell_at (base r) k)));
        [reflexivity|].
      intros r. destruct (cell_at (base r) k); cbn; split; try done; eauto.
Qed.

(** X10.  Raising "Top N" only appends rows: the leaderboard for [n] is the
    beginning of the leaderboard for any greater [n'], under the same header;
    and from the number of eligible rows on, it does not grow any more. *)
Theorem leaderboard_top_n_prefix (S : Sorter) (df : DataFrame)
    (lb_team : option string) (m : string) (n n' : nat) :
  match leaderboard S df lb_team m n, leaderboard S df lb_team m n' with
  | Ok out, Ok out' =>
      l_columns out = l_columns out'
      ∧ (n ≤ n' → l_rows out = take n (l_rows out'))
      ∧ (length (l_rows out') < n' → n' ≤ n → l_rows out = l_rows out')
  | Raise e, Raise e' => e = e'
  | _, _ => False
  end.
Proof.
  rewrite !leaderboard_unfold.
  destruct (col_pos (columns df) m) as [k|]; [|done].
  rewrite !result_bind_Ok. destruct (dict_get LABEL m) as [lbl|]; [|done].
  rewrite !result_bind_Ok. cbn [l_columns l_rows].
  set (l := leader_row k <$> _).
  split; [done|]. split.
  - intros Hn. rewrite take_take. f_equal. lia.
  - intros Hlen Hn. rewrite length_take in Hlen.
    rewrite !take_ge by lia. done.
Qed.

(** ** The cache of [load_df] *)

Lemma load_df_cache (csv_path : string) (w w1 : world) (l : loc) :
  load_df csv_path w = Ok (l, w1) →
  ∃ d, cache w1 = <[csv_path := d]> (cache w)
       ∧ heap w1 = <[l := d]> (heap w)
       ∧ heap w !! l = None
       ∧ files w1 = files w.
Proof.
  intros Hl. destruct (cache w !! csv_path) as [d|] eqn:Hc.
  - rewrite (load_df_hit _ _ _ Hc) in Hl. apply new_frame_Ok in Hl as [-> ->].
    exists d. cbn. rewrite insert_id by done. auto using fresh_loc.
  - rewrite (load_df_miss _ _ Hc) in Hl.
    destruct (files w !! csv_path) as [csv|]; [|discriminate].
    cbv zeta in Hl. apply new_frame_Ok in Hl as [-> ->]. cbn.
    eexists. split; [reflexivity|]. split; [reflexivity|]. auto using fresh_loc.
Qed.


(** X12.  Once a season has been loaded, it is answered from the cache: a later
    load of the same season returns the same table whatever the files hold by
    then (changed, or gone), because the cache is keyed by the path alone. *)
Theorem load_season_ignores_later_files (season : string) (w w1 : world)
    (l1 : loc) (files' : gmap string CsvFrame) :
  load_season season w = Ok (l1, w1) →
  ∃ l2 w2 d,
    load_season season (mkWorld files' (cache w1) (heap w1)) = Ok (l2, w2)
    ∧ heap w1 !! l1 = Some d
    ∧ heap w2 !! l2 = Some d
    ∧ cache w2 = cache w1.
Proof.
  unfold load_season. intros Hl. inv_script. rename a into p.
  destruct (load_df_Ok _ _ _ _ Hl) as (d & Hd & _ & _ & _ & Hc & _).
  set (w1' := mkWorld files' (cache w1) (heap w1)).
  exists (fresh (dom (heap w1'))),
         (mkWorld files' (cache w1) (<[fresh (dom (heap w1')) := d]> (heap w1'))), d.
  split.
  { apply bind_Ok. exists p, w1'. split; [by apply pure_Ok|].
    rewrite (load_df_hit p w1' d Hc). reflexivity. }
  cbn. rewrite lookup_insert_eq. done.
Qed.

Lemma load_season_ignores_later_files_witness :
  ∃ l1 w1 l2 w2 d,
    load_season "2025" season_world = Ok (l1, w1)
    ∧ load_season "2025" (mkWorld ∅ (cache w1) (heap w1)) = Ok (l2, w2)
    ∧ heap w1 !! l1 = Some d ∧ heap w2 !! l2 = Some d.
Proof.
  assert (E : ∃ l1 w1, load_season "2025" season_world = Ok (l1, w1)).
  { eexists _, _. vm_compute. reflexivity. }
  destruct E as (l1 & w1 & E).
  destruct (load_season_ignores_later_files "2025" season_world w1 l1 ∅ E)
    as (l2 & w2 & d & H2 & Hd1 & Hd2 & _).
  exists l1, w1, l2, w2, d. auto.
Defined.

(** X13.  Loading another season leaves the first one in place: the table object
    of the first load is unchanged, its cache entry is kept, and going back to
    the first season returns an equal table. *)
Theorem load_other_season_keeps_first (s1 s2 : string) (w w1 w2 : world)
    (l1 l2 : loc) :
  load_season s1 w = Ok (l1, w1) →
  load_season s2 w1 = Ok (l2, w2) →
  ∃ l3 w3 d,
    load_season s1 w2 = Ok (l3, w3)
    ∧ heap w1 !! l1 = Some d
    ∧ heap w2 !! l1 = Some d
    ∧ heap w3 !! l3 = Some d
    ∧ l2 ≠ l1.
Proof.
  unfold load_season. intros H1 H2. inv_script. rename a0 into p1, a into p2.
  destruct (load_df_Ok _ _ _ _ H1) as (d & Hd & _ & _ & _ & Hc & _).
  destruct (load_df_cache _ _ _ _ H2) as (d2 & Hc2 & Hh2 & Hfresh & _).
  assert (Hne : l2 ≠ l1) by (intros ->; congruence).
  assert (Hc1 : cache w2 !! p1 = Some d).
  { rewrite Hc2. destruct (decide (p2 = p1)) as [->|Hp].
    - rewrite lookup_insert_eq.
      destruct (load_df_Ok _ _ _ _ H2) as (d' & _ & _ & _ & _ & Hc' & Hsrc).
      rewrite Hc2, lookup_insert_eq in Hc'. injection Hc' as ->.
      destruct Hsrc as [?|[? _]]; congruence.
    - by rewrite lookup_insert_ne. }
  exists (fresh (dom (heap w2))),
         (mkWorld (files w2) (cache w2) (<[fresh (dom (heap w2)) := d]> (heap w2))), d.
  split.
  { apply bind_Ok. exists p1, w2. split; [by apply pure_Ok|].
    rewrite (load_df_hit p1 w2 d Hc1). reflexivity. }
  cbn. rewrite lookup_insert_eq, Hh2, lookup_insert_ne by done. done.
Qed.

Definition two_seasons_world : world :=
  mkWorld {["defensive_metrics_25.csv" := full_csv;
            "defensive_metrics_24.csv" := example_csv]} ∅ ∅.

Lemma load_other_season_keeps_first_witness :
  ∃ l1 w1 l2 w2 l3 w3 d,
    load_season "2025" two_seasons_world = Ok (l1, w1)
    ∧ load_season "2024" w1 = Ok (l2, w2)
    ∧ load_season "2025" w2 = Ok (l3, w3)
    ∧ heap w1 !! l1 = Some d ∧ heap w3 !! l3 = Some d.
Proof.
  assert (E : ∃ l1 w1 l2 w2,
             load_season "2025" two_seasons_world = Ok (l1, w1)
             ∧ load_season "2024" w1 = Ok (l2, w2)).
  { eexists _, _, _, _. split; vm_compute; reflexivity. }
  destruct E as (l1 & w1 & l2 & w2 & E1 & E2).
  destruct (load_other_season_keeps_first "2025" "2024" two_seasons_world
              w1 w2 l1 l2 E1 E2) as (l3 & w3 & d & H3 & Hd1 & _ & Hd3 & _).
  exists l1, w1, l2, w2, l3, w3, d. auto.
Defined.

(** ** What a run needs *)

(** The columns lines 78-132 read from the selected row. *)
Definition page_columns : list string :=
  ["Inn"; "Age"] ++ RAW_METRICS ++ PCT_METRICS.

Lemma candidates_obj_total (df : loc) (team : option string) (w : world)
    (d : DataFrame) :
  heap w !! df = Some d →
  ∃ c w1, candidates_obj df team w = Ok (c, w1)
          ∧ heap w1 !! c = Some (candidates d team)
          ∧ heap w1 !! df = Some d.
Proof.
  intros Hd. unfold candidates_obj, candidates. case_decide.
  - exists df, w. done.
  - eexists _, _. split.
    + apply bind_Ok. exists d, w. split; [by apply frame_Ok|]. reflexivity.
    + cbn. rewrite lookup_insert_eq. split; [done|].
      rewrite lookup_insert_ne; [done|].
      intros E. pose proof (fresh_loc w) as Hf. rewrite E, Hd in Hf. discriminate.
Qed.







Definition full_df : DataFrame :=
  Eval vm_compute in
    match load_df_body full_csv with
    | Ok d => d
    | Raise _ => mkDataFrame [] []
    end.

Definition loaded_world : world := mkWorld ∅ ∅ {[0 := full_df]}.


(** X15.  Conversely, a run of the page body that completes had all it reads: the
    frame has Inn, Age and the twelve metric columns (a file without one of
    them loads, but the page then stops with KeyError), the selected row is a
    row of the table and has its innings, which the header shows cut to an
    integer, and the page holds the row's raw and percentile cells in the
    order of [RAW_METRICS] and [PCT_METRICS]. *)
Theorem render_reads_full_schema (S : Sorter) (ui : inputs) (df : loc)
    (w w' : world) (pg : page) (d : DataFrame) :
  render S ui df w = Ok (pg, w') →
  heap w !! df = Some d →
  (∀ c, c ∈ page_columns → c ∈ columns d)
  ∧ p_row pg ∈ rows d
  ∧ (∃ q, value_of (columns d) (base (p_row pg)) "Inn" = Some q
          ∧ p_innings pg = Z.quot (Qnum q) (Z.pos (Qden q)))
  ∧ p_age pg = value_of (columns d) (base (p_row pg)) "Age"
  ∧ p_raw pg = value_of (columns d) (base (p_row pg)) <$> RAW_METRICS
  ∧ p_pct pg = value_of (columns d) (base (p_row pg)) <$> PCT_METRICS.
Proof.
  unfold render. intros Hr Hd. inv_script.
  rewrite Hd in H. injection H as <-.
  pose proof (candidates_obj_Ok _ _ _ _ _ _ H0 Hd) as Hc.
  rewrite Hc in H1. injection H1 as <-.
  injection Hr as <- <-. cbn [p_row p_innings p_age p_raw p_pct].
  assert (Hinn : "Inn" ∈ columns d).
  { destruct (decide ("Inn" ∈ columns d)) as [|Hn]; [done|].
    rewrite (getitem_Raise _ _ _ Hn) in H4. discriminate. }
  assert (Hage : "Age" ∈ columns d).
  { destruct (decide ("Age" ∈ columns d)) as [|Hn]; [done|].
    rewrite (getitem_Raise _ _ _ Hn) in H5. discriminate. }
  pose proof (mapM_getitem_inv _ _ _ _ H7) as Hraw.
  pose proof (mapM_getitem_inv _ _ _ _ H8) as Hpct.
  split; [|split; [|split; [|split; [|split]]]].
  - intros c Hc'. unfold page_columns in Hc'.
    apply elem_of_cons in Hc' as [->|Hc']; [done|].
    apply elem_of_cons in Hc' as [->|Hc']; [done|].
    apply elem_of_app in Hc' as [?|?]; auto.
  - apply row_elem_of in H2 as [Hin _]. eapply candidates_subseteq, Hin.
  - rewrite (getitem_Ok _ _ _ Hinn), result_bind_Ok in H4.
    destruct (value_of (columns d) (base a2) "Inn") as [q|]; [|discriminate].
    injection H4 as <-. eauto.
  - rewrite (getitem_Ok _ _ _ Hage) in H5. by injection H5.
  - rewrite (mapM_getitem_Ok _ _ _ Hraw) in H7. by injection H7.
  - rewrite (mapM_getitem_Ok _ _ _ Hpct) in H8. by injection H8.
Qed.

Lemma render_reads_full_schema_witness :
  ∃ pg w',
    render stable_sorter first_inputs 0 loaded_world = Ok (pg, w')
    ∧ p_innings pg = 900%Z
    ∧ ∀ c, c ∈ page_columns → c ∈ columns full_df.
Proof.
  assert (E : ∃ pg w', render stable_sorter first_inputs 0 loaded_world
                       = Ok (pg, w') ∧ p_innings pg = 900%Z).
  { eexists _, _. split; vm_compute; reflexivity. }
  destruct E as (pg & w' & E & Hi).
  destruct (render_reads_full_schema stable_sorter first_inputs 0 loaded_world
              w' pg full_df E eq_refl) as (Hcols & _).
  exists pg, w'. auto.
Defined.

(** ** The options of the selectboxes *)









(** ** The innings of the header *)

Lemma script_bind_Ok {A B} (m : script A) (f : A → script B) (w w1 : world) (a : A) :
  m w = Ok (a, w1) → (m ≫= f) w = f a w1.
Proof. intros E. unfold mbind, script_bind. by rewrite E. Qed.

Lemma script_bind_Raise {A B} (m : script A) (f : A → script B) (w : world)
    (e : exn) :
  m w = Raise e → (m ≫= f) w = Raise e.
Proof. intros E. unfold mbind, script_bind. by rewrite E. Qed.

(** X17.  Line 79 converts the innings of the selected row with [int]: when the
    frame has no Inn column the run stops with KeyError, and when the selected
    row's Inn cell is empty it stops with ValueError (a NaN cannot be
    converted); both before anything below the header is computed. *)
Theorem render_innings_errors (S : Sorter) (ui : inputs) (df : loc) (w : world)
    (d : DataFrame) (r : Row) :
  heap w !! df = Some d →
  row (candidates d (selectbox (team_options d) (team_choice ui)))
    (selectbox
       (player_options (candidates d (selectbox (team_options d) (team_choice ui))))
       (player_choice ui)) = Ok r →
  ("Inn" ∉ columns d → render S ui df w = Raise (KeyError "Inn"))
  ∧ ("Inn" ∈ columns d → value_of (columns d) (base r) "Inn" = None →
     render S ui df w = Raise ValueError).
Proof.
  intros Hd Hrow.
  set (team := selectbox (team_options d) (team_choice ui)) in *.
  destruct (candidates_obj_total df team w d Hd) as (c & w1 & Hc & Hc1 & _).
  assert (Hpre : ∀ e,
            getitem (columns d) (base r) "Inn" ≫= py_int = Raise e →
            render S ui df w = Raise e).
  { intros e He. unfold render.
    rewrite (script_bind_Ok _ _ w w d) by (by apply frame_Ok).
    fold team. rewrite (script_bind_Ok _ _ w w1 c Hc).
    rewrite (script_bind_Ok _ _ w1 w1 (candidates d team)) by (by apply frame_Ok).
    rewrite (script_bind_Ok _ _ w1 w1 r) by (by apply pure_Ok).
    rewrite (script_bind_Ok _ _ w1 w1 (filter (has_data (columns d) r) PCT_METRICS))
      by (apply pure_Ok; split; [apply pct_cols_of_Ok | done]).
    apply script_bind_Raise. unfold pure. by rewrite He. }
  split.
  - intros Hn. apply Hpre. by rewrite (getitem_Raise _ _ _ Hn).
  - intros Hin Hnone. apply Hpre. by rewrite (getitem_Ok _ _ _ Hin), Hnone.
Qed.

Definition no_innings_row : Row :=
  mkRow (mkCsvRow "Eve" "TeamX" [None; Some 29%Q]) None.

Definition no_innings_world : world :=
  mkWorld ∅ ∅ {[0 := mkDataFrame ["Inn"; "Age"] [no_innings_row]]}.

Lemma render_innings_errors_witness :
  render stable_sorter first_inputs 0 no_innings_world = Raise ValueError.
Proof.
  apply (render_innings_errors stable_sorter first_inputs 0 no_innings_world
           (mkDataFrame ["Inn"; "Age"] [no_innings_row]) no_innings_row).
  - reflexivity.
  - vm_compute. reflexivity.
  - apply (bool_decide_unpack _). vm_compute. exact I.
  - vm_compute. reflexivity.
Defined.
